(** * Plugin resolution and loading core of gödel (package [plugins])

    A shallow embedding of [LoadPluginsTasks], [resolvePlugins],
    [verifyPluginCompatibility], [verifySinglePluginCompatibility],
    [sortLocators], [pluginPath] and [pluginFileName], with the file
    system and the record of performed I/O threaded as explicit state.
    Go maps are [gmap]s; errors are the text of their [Error()] method. *)

From Stdlib Require Import String Ascii List.
From stdpp Require Import gmap strings list fin_maps sorting pretty.

Local Open Scope string_scope.

(** ** Strings as Go handles them *)

Module GoStr.

(** [strings.Join(parts, sep)]. *)
Fixpoint Join (parts : list string) (sep : string) : string :=
  match parts with
  | [] => ""
  | [p] => p
  | p :: rest => p +:+ sep +:+ Join rest sep
  end.

(** [strings.Repeat(s, n)]. *)
Fixpoint Repeat (s : string) (n : nat) : string :=
  match n with
  | O => ""
  | S n' => s +:+ Repeat s n'
  end.

(** The [%d] verb on a non-negative [int]. *)
Definition fmt_d (n : nat) : string :=
  pretty n.

(** The [%v] verb on a [[]string]: the elements separated by one
    space, in square brackets. *)
Definition fmt_v_strings (l : list string) : string :=
  "[" +:+ Join l " " +:+ "]".

(** [errors.Wrapf(err, msg).Error()] of github.com/pkg/errors. *)
Definition Wrapf (err msg : string) : string := msg +:+ ": " +:+ err.

(** The line feed of Go's ["\n"]. *)
Definition nl : string := String (ascii_of_nat 10) EmptyString.

(** The concatenation of a list of strings. *)
Definition concat (l : list string) : string := foldr String.append "" l.

(** ASCII lower case of a byte, and [strings.EqualFold] on ASCII
    strings: equality that ignores case. *)
Definition lower (c : ascii) : ascii :=
  let n := nat_of_ascii c in
  if (65 <=? n)%nat && (n <=? 90)%nat then ascii_of_nat (n + 32) else c.

Fixpoint EqualFold (s1 s2 : string) : bool :=
  match s1, s2 with
  | EmptyString, EmptyString => true
  | String c1 s1', String c2 s2' => Ascii.eqb (lower c1) (lower c2) && EqualFold s1' s2'
  | _, _ => false
  end.

(** Go compares strings bytewise: [s1 < s2]. *)
Definition lt (s1 s2 : string) : bool := String.ltb s1 s2.

(** [not (s2 < s1)], the order a sort by [<] produces. *)
Definition le (s1 s2 : string) : Prop := String.ltb s2 s1 = false.

End GoStr.

(** ** Data model *)

(** The locator of a plugin; Go compares two of them field by field. *)
Record locator := Locator {
  Group : string;
  Product : string;
  Version : string;
}.

#[global] Instance locator_eq_dec : EqDecision locator.
Proof. solve_decision. Defined.

#[global] Instance locator_countable : Countable locator.
Proof.
  apply (inj_countable' (fun l => (Group l, Product l, Version l))
                        (fun t => Locator t.1.1 t.1.2 t.2)).
  by intros [].
Defined.

(** Modelled from the spec: [locator.String()] is declared outside the
    given sources; the spec gives the rendered form
    [group:product:version]. *)
Definition locator_String (l : locator) : string :=
  Group l +:+ ":" +:+ Product l +:+ ":" +:+ Version l.

(** [osarch.OSArch]: the pair (OS, Arch). *)
Definition OSArch : Type := (string * string)%type.

(** [pluginFileName]: [fmt.Sprintf("%s-%s-%s", Group, Product, Version)]. *)
Definition pluginFileName (l : locator) : string :=
  Group l +:+ "-" +:+ Product l +:+ "-" +:+ Version l.

(** [path.Join(dir, name)] for a clean directory and a plain file name. *)
Definition path_Join (dir name : string) : string := dir +:+ "/" +:+ name.

(** [pluginPath]. *)
Definition pluginPath (pluginDir : string) (l : locator) : string :=
  path_Join pluginDir (pluginFileName l).

(** ** [sortLocators] *)

(** The [less] function handed to [sort.Slice]. *)
Definition locator_less (a b : locator) : bool :=
  GoStr.lt (locator_String a) (locator_String b).

(** One pass of insertion: [x] moves left while it is less than its
    left neighbour, i.e. it lands before the first element it is less
    than. *)
Fixpoint insert_sorted {A} (less : A -> A -> bool) (x : A) (l : list A) : list A :=
  match l with
  | [] => [x]
  | y :: l' => if less x y then x :: y :: l' else y :: insert_sorted less x l'
  end.

(** [sort.Slice(s, less)], as the insertion sort the library runs on
    short slices. *)
Definition sort_Slice {A} (less : A -> A -> bool) (l : list A) : list A :=
  fold_left (fun acc x => insert_sorted less x acc) l [].

Definition sortLocators (locs : list locator) : list locator :=
  sort_Slice locator_less locs.

(** The order [sortLocators] sorts by. *)
Definition locator_le (a b : locator) : Prop :=
  GoStr.le (locator_String a) (locator_String b).

(** [sort.Strings]. *)
Definition sort_Strings (l : list string) : list string :=
  sort_Slice GoStr.lt l.

(** ** Plugin information and tasks *)

(** Modelled from the spec: the types of package [pluginapi] are
    declared outside the given sources. [GlobalFlagOptions] holds the
    literal flag the plugin expects for each convention, the empty
    string when not declared. *)
Record GlobalFlagOptions := {
  DebugFlag : string;
  ProjectDirFlag : string;
  GodelConfigFlag : string;
  ConfigFlag : string;
}.

Record VerifyOptions := {
  ApplyFalseArgs : list string;
}.

Record TaskInfo := {
  TaskName : string;
  TaskDescription : string;
  TaskCommand : string;
  TaskGlobalFlagOptions : GlobalFlagOptions;
  TaskVerifyOptions : VerifyOptions;
}.

(** Modelled from the spec: [pluginapi.Info], as a plain record of
    the plugin's identity, its configuration file and its tasks. *)
Record Info := {
  InfoGroup : string;
  InfoProduct : string;
  InfoVersion : string;
  ConfigFileName : string;
  InfoTasks : list TaskInfo;
}.

(** The zero value Go yields for [plugins[k]] on a missing key. *)
#[global] Instance Info_inhabited : Inhabited Info :=
  populate {| InfoGroup := ""; InfoProduct := ""; InfoVersion := "";
              ConfigFileName := ""; InfoTasks := [] |}.

(** Modelled from the spec: [godellauncher.Task] is declared outside
    the given sources; the user-visible name and description, and what
    the runner closes over. *)
Record Task := {
  Name : string;
  Description : string;
  TaskExecPath : string;
  TaskConfigFile : string;
  TaskDecl : TaskInfo;
}.

(** Modelled from the spec: [pluginapi.Info.Tasks] is declared outside
    the given sources; each [TaskInfo] yields one runnable descriptor
    bound to the plugin's executable, in the order of declaration. *)
Definition Info_Tasks (info : Info) (pluginExecPath : string) : list Task :=
  map (fun ti => {| Name := TaskName ti;
                    Description := TaskDescription ti;
                    TaskExecPath := pluginExecPath;
                    TaskConfigFile := ConfigFileName info;
                    TaskDecl := ti |})
      (InfoTasks info).

(** ** Configuration *)

(** Modelled from the spec: the parameter types are declared outside
    the given sources; [resolvePlugins] reads the fields
    [LocatorWithChecksums.locator] (here [loc]),
    [LocatorWithChecksums.Checksums], [DefaultResolvers] and
    [Plugins]. *)
Record locatorWithChecksums := {
  loc : locator;
  Checksums : gmap OSArch string;
}.

Record pluginParam := {
  LocatorWithChecksums : locatorWithChecksums;
  Resolver : string;
}.

Record projectParams := {
  DefaultResolvers : list string;
  Plugins : list pluginParam;
}.

(** ** Results, the world and its monad *)

Inductive result (A : Type) : Type :=
| Ok (a : A)
| Err (e : string).
Arguments Ok {A} a.
Arguments Err {A} e.

(** What the resolver does to its environment, in order. *)
Inductive Event : Type :=
| EvStat (p : string)
| EvResolveTGZ (l : locator) (dst : string)
| EvOpenFile (p : string)
| EvOpen (p : string)
| EvCopyTGZ (dst src : string)
| EvClose (p : string)
| EvChecksum (p : string)
| EvInfo (p : string).

#[global] Instance Event_eq_dec : EqDecision Event.
Proof. solve_decision. Defined.

(** The file system (path to content) and the I/O performed so far. *)
Record World := {
  files : gmap string string;
  trace : list Event;
}.

Definition M (A : Type) : Type := World -> World * A.

Definition ret {A} (a : A) : M A := fun w => (w, a).

Definition bind {A B} (c : M A) (k : A -> M B) : M B :=
  fun w => let (w', a) := c w in k a w'.

Declare Scope io_scope.
Delimit Scope io_scope with io.
Notation "x <- c ;; k" := (bind c (fun x => k))
  (at level 100, c at next level, right associativity) : io_scope.
Local Open Scope io_scope.

Definition emit (e : Event) : M unit :=
  fun w => ({| files := files w; trace := trace w ++ [e] |}, tt).

Definition set_files (f : gmap string string -> gmap string string) : M unit :=
  fun w => ({| files := f (files w); trace := trace w |}, tt).

Definition get_files : M (gmap string string) :=
  fun w => (w, files w).

(** ** The resolver *)

(** Collaborators declared outside the given sources, and the
    environment of a run. *)
Class Env := {
  (** [resolvePluginTGZ currPlugin defaultResolvers osArch tgzDstPath]:
      transforms the file system and may fail. *)
  resolvePluginTGZ :
    pluginParam -> list string -> OSArch -> string ->
    gmap string string -> gmap string string * option string;
  (** [copyPluginTGZContent]: from the archive's bytes, the bytes that
      reach the destination and the error, if any. *)
  copyPluginTGZContent : string -> string * option string;
  (** The hex-encoded SHA-256 digest of a file's bytes. *)
  sha256hex : string -> string;
  (** Running a plugin binary with [InfoCommandName] and parsing its
      output. *)
  infoOutput : string -> result Info;
  (** Failures of the operating system on [os.OpenFile] and [Close]. *)
  openFile_fault : gmap string string -> string -> option string;
  close_fault : string -> option string;
  (** The order in which [for k := range m] visits the keys of a map. *)
  rangeOrder : list locator -> list locator;
  (** [projectParamsFromConfig], [layout.GödelHomeSpecDir] with the
      plugins and downloads directories it yields, [osarch.Current()]. *)
  PluginsConfig : Type;
  projectParamsFromConfig : PluginsConfig -> result projectParams;
  GodelHomeSpecDir : result (string * string);
  osarch_Current : OSArch;
}.

(** Whatever the order of a map iteration, it visits every key once. *)
Definition rangeOrder_ok (env : Env) : Prop :=
  forall l : list locator, rangeOrder l ≡ₚ l.

(** The fetcher writes the archive it was asked for and nothing else. *)
Definition fetch_writes_archive_only (env : Env) : Prop :=
  forall currPlugin defaultResolvers osArch tgzDstPath fs p,
    p <> tgzDstPath ->
    (resolvePluginTGZ currPlugin defaultResolvers osArch tgzDstPath fs).1 !! p = fs !! p.

(** No install path of a declared plugin is the archive path of a
    declared plugin. *)
Definition archives_apart (pluginsDir downloadsDir : string) (param : projectParams)
    : Prop :=
  forall p q, p ∈ Plugins param -> q ∈ Plugins param ->
    pluginPath pluginsDir (loc (LocatorWithChecksums p))
    <> path_Join downloadsDir (pluginFileName (loc (LocatorWithChecksums q)) +:+ ".tgz").

(** The events of fetching and of unpacking, and those of checksum
    work. *)
Definition isFetchOrUnpack (e : Event) : bool :=
  match e with
  | EvResolveTGZ _ _ | EvOpenFile _ | EvOpen _ | EvCopyTGZ _ _ | EvClose _ => true
  | _ => false
  end.

Definition isChecksum (e : Event) : bool :=
  match e with
  | EvChecksum _ => true
  | _ => false
  end.

Section Core.

Context {env : Env}.

Definition mapKeys {V} (m : gmap locator V) : list locator :=
  rangeOrder (elements (dom m)).

(** [_, err := os.Stat(p); os.IsNotExist(err)]. *)
Definition os_Stat_IsNotExist (p : string) : M bool :=
  _ <- emit (EvStat p) ;;
  fs <- get_files ;;
  ret (bool_decide (fs !! p = None)).

Definition run_resolvePluginTGZ (currPlugin : pluginParam)
    (defaultResolvers : list string) (osArch : OSArch) (tgzDstPath : string)
    : M (option string) :=
  _ <- emit (EvResolveTGZ (loc (LocatorWithChecksums currPlugin)) tgzDstPath) ;;
  fs <- get_files ;;
  let (fs', err) := resolvePluginTGZ currPlugin defaultResolvers osArch tgzDstPath fs in
  _ <- set_files (fun _ => fs') ;;
  ret err.

(** [os.OpenFile(p, os.O_RDWR|os.O_CREATE|os.O_TRUNC, 0755)]. *)
Definition os_OpenFile_create_trunc (p : string) : M (option string) :=
  _ <- emit (EvOpenFile p) ;;
  fs <- get_files ;;
  match openFile_fault fs p with
  | Some err => ret (Some err)
  | None => _ <- set_files (insert p "") ;; ret None
  end.

(** [os.Open(p)], yielding the bytes to be read. *)
Definition os_Open (p : string) : M (result string) :=
  _ <- emit (EvOpen p) ;;
  fs <- get_files ;;
  match fs !! p with
  | Some c => ret (Ok c)
  | None => ret (Err ("open " +:+ p +:+ ": no such file or directory"))
  end.

(** [copyPluginTGZContent(pluginFile, tgzFile)] on the opened files. *)
Definition run_copyPluginTGZContent (dst src tgz : string) : M (option string) :=
  _ <- emit (EvCopyTGZ dst src) ;;
  let (written, err) := copyPluginTGZContent tgz in
  _ <- set_files (insert dst written) ;;
  ret err.

Definition file_Close (p : string) : M (option string) :=
  _ <- emit (EvClose p) ;;
  ret (close_fault p).

(** Modelled from the spec: [sha256ChecksumFile] is declared outside
    the given sources; it yields the hex-encoded SHA-256 digest of the
    file at [p] and fails when the file cannot be opened. *)
Definition sha256ChecksumFile (p : string) : M (result string) :=
  _ <- emit (EvChecksum p) ;;
  fs <- get_files ;;
  match fs !! p with
  | Some c => ret (Ok (sha256hex c))
  | None => ret (Err ("open " +:+ p +:+ ": no such file or directory"))
  end.

(** Modelled from the spec: [pluginapi.InfoFromPlugin] is declared
    outside the given sources; it runs the executable at [p] with the
    info command and parses what it prints. *)
Definition InfoFromPlugin (p : string) : M (result Info) :=
  _ <- emit (EvInfo p) ;;
  fs <- get_files ;;
  match fs !! p with
  | Some c => ret (infoOutput c)
  | None => ret (Err ("fork/exec " +:+ p +:+ ": no such file or directory"))
  end.

(** The closure [func() (rErr error)] of [resolvePlugins]: the
    deferred [Close] runs on every path past a successful [OpenFile],
    and its error replaces the returned one. *)
Definition extractPlugin (currPluginDstPath tgzDstPath : string) : M (option string) :=
  o <- os_OpenFile_create_trunc currPluginDstPath ;;
  match o with
  | Some err =>
      ret (Some (GoStr.Wrapf err ("failed to create file " +:+ currPluginDstPath)))
  | None =>
      rErr <- (t <- os_Open tgzDstPath ;;
               match t with
               | Err err =>
                   ret (Some (GoStr.Wrapf err
                     ("failed to open " +:+ tgzDstPath +:+ " for reading")))
               | Ok tgz =>
                   run_copyPluginTGZContent currPluginDstPath tgzDstPath tgz
               end) ;;
      c <- file_Close currPluginDstPath ;;
      match c with
      | Some err =>
          ret (Some (GoStr.Wrapf err ("failed to close file " +:+ currPluginDstPath)))
      | None => ret rErr
      end
  end.

(** The body of [if _, err := os.Stat(currPluginDstPath);
    os.IsNotExist(err)]: fetch the archive, then extract it; [Some err]
    is what the iteration stores in [pluginErrors]. *)
Definition ensureInstalled (pluginsDir downloadsDir : string) (osArch : OSArch)
    (param : projectParams) (currPlugin : pluginParam) : M (option string) :=
  let currPluginLocator := loc (LocatorWithChecksums currPlugin) in
  let currPluginDstPath := path_Join pluginsDir (pluginFileName currPluginLocator) in
  notExist <- os_Stat_IsNotExist currPluginDstPath ;;
  if (notExist : bool) then
    let tgzDstPath :=
      path_Join downloadsDir (pluginFileName currPluginLocator +:+ ".tgz") in
    r <- run_resolvePluginTGZ currPlugin (DefaultResolvers param) osArch tgzDstPath ;;
    match r with
    | Some err => ret (Some err)
    | None =>
        x <- extractPlugin currPluginDstPath tgzDstPath ;;
        match x with
        | Some err =>
            ret (Some (GoStr.Wrapf err
              "failed to extract plugin from archive into destination"))
        | None => ret None
        end
    end
  else ret None.

(** The body of [if wantChecksum, ok :=
    currPlugin.LocatorWithChecksums.Checksums[osArch]; ok]. *)
Definition verifyChecksum (osArch : OSArch) (currPlugin : pluginParam)
    (currPluginDstPath : string) : M (option string) :=
  match Checksums (LocatorWithChecksums currPlugin) !! osArch with
  | Some wantChecksum =>
      g <- sha256ChecksumFile currPluginDstPath ;;
      match g with
      | Err err =>
          ret (Some (GoStr.Wrapf err "failed to compute checksum for plugin"))
      | Ok gotChecksum =>
          if bool_decide (gotChecksum <> wantChecksum) then
            ret (Some ("failed to verify checksum for " +:+ currPluginDstPath
                       +:+ ": want " +:+ wantChecksum
                       +:+ ", got " +:+ gotChecksum))
          else ret None
      end
  | None => ret None
  end.

(** One iteration of the loop over [param.Plugins]: [Err e] is
    [pluginErrors[currPluginLocator] = e; continue], [Ok info] is
    [plugins[currPluginLocator] = info]. *)
Definition resolvePlugin (pluginsDir downloadsDir : string) (osArch : OSArch)
    (param : projectParams) (currPlugin : pluginParam) : M (result Info) :=
  let currPluginLocator := loc (LocatorWithChecksums currPlugin) in
  let currPluginDstPath := path_Join pluginsDir (pluginFileName currPluginLocator) in
  fetched <- ensureInstalled pluginsDir downloadsDir osArch param currPlugin ;;
  match fetched with
  | Some err => ret (Err err)
  | None =>
      checked <- verifyChecksum osArch currPlugin currPluginDstPath ;;
      match checked with
      | Some err => ret (Err err)
      | None =>
          i <- InfoFromPlugin (path_Join pluginsDir (pluginFileName currPluginLocator)) ;;
          match i with
          | Err err =>
              ret (Err (GoStr.Wrapf err
                ("failed to get plugin info for plugin "
                 +:+ locator_String currPluginLocator)))
          | Ok info => ret (Ok info)
          end
      end
  end.

(** The loop [for _, currPlugin := range param.Plugins] with its two
    maps. *)
Fixpoint sweepPlugins (pluginsDir downloadsDir : string) (osArch : OSArch)
    (param : projectParams) (todo : list pluginParam)
    (plugins : gmap locator Info) (pluginErrors : gmap locator string)
    : M (gmap locator Info * gmap locator string) :=
  match todo with
  | [] => ret (plugins, pluginErrors)
  | currPlugin :: rest =>
      let currPluginLocator := loc (LocatorWithChecksums currPlugin) in
      r <- resolvePlugin pluginsDir downloadsDir osArch param currPlugin ;;
      match r with
      | Ok info =>
          sweepPlugins pluginsDir downloadsDir osArch param rest
            (<[currPluginLocator := info]> plugins) pluginErrors
      | Err err =>
          sweepPlugins pluginsDir downloadsDir osArch param rest
            plugins (<[currPluginLocator := err]> pluginErrors)
      end
  end.

Definition indentSpaces : nat := 4.

(** The summary built once errors were encountered. *)
Definition resolveErrorSummary (pluginErrors : gmap locator string) : string :=
  let sortedKeys := sortLocators (mapKeys pluginErrors) in
  let pluginOrPlugins :=
    if Nat.eqb (size pluginErrors) 1 then "plugin" else "plugins" in
  let errStringsParts :=
    ("failed to resolve " +:+ GoStr.fmt_d (size pluginErrors) +:+ " "
       +:+ pluginOrPlugins +:+ ":")
    :: map (fun k => default "" (pluginErrors !! k)) sortedKeys in
  GoStr.Join errStringsParts (GoStr.nl +:+ GoStr.Repeat " " indentSpaces).

Definition resolvePlugins (pluginsDir downloadsDir : string) (osArch : OSArch)
    (param : projectParams) : M (result (gmap locator Info)) :=
  r <- sweepPlugins pluginsDir downloadsDir osArch param (Plugins param) ∅ ∅ ;;
  let '(plugins, pluginErrors) := r in
  if Nat.eqb (size pluginErrors) 0 then ret (Ok plugins)
  else ret (Err (resolveErrorSummary pluginErrors)).

(** The world once the loop has gone through [todo]. *)
Definition worldAfter (pluginsDir downloadsDir : string) (osArch : OSArch)
    (param : projectParams) (todo : list pluginParam) (w : World) : World :=
  fold_left (fun w currPlugin =>
               (resolvePlugin pluginsDir downloadsDir osArch param currPlugin w).1)
            todo w.

(** What the [i]-th iteration of the loop over [param.Plugins] yields for
    [currPlugin], in a run started in [w]. *)
Definition attempt (pluginsDir downloadsDir : string) (osArch : OSArch)
    (param : projectParams) (w : World) (i : nat) (currPlugin : pluginParam)
    : result Info :=
  (resolvePlugin pluginsDir downloadsDir osArch param currPlugin
     (worldAfter pluginsDir downloadsDir osArch param (take i (Plugins param)) w)).2.

(** An iteration fails in one of its steps: the fetch or the unpack,
    the checksum, the info probe. *)
Definition stepFails (pluginsDir downloadsDir : string) (osArch : OSArch)
    (param : projectParams) (currPlugin : pluginParam) (w : World) : Prop :=
  let dst := path_Join pluginsDir (pluginFileName (loc (LocatorWithChecksums currPlugin))) in
  (exists err,
     (ensureInstalled pluginsDir downloadsDir osArch param currPlugin w).2 = Some err)
  \/ (exists w1 err,
        ensureInstalled pluginsDir downloadsDir osArch param currPlugin w = (w1, None)
        /\ (verifyChecksum osArch currPlugin dst w1).2 = Some err)
  \/ (exists w1 w2 err,
        ensureInstalled pluginsDir downloadsDir osArch param currPlugin w = (w1, None)
        /\ verifyChecksum osArch currPlugin dst w1 = (w2, None)
        /\ (InfoFromPlugin dst w2).2 = Err err).

(** The I/O of an iteration that finds the plugin installed: the
    existence check, the checksum when one is configured for the
    platform, the info probe. *)
Definition installedTrace (pluginsDir : string) (osArch : OSArch)
    (currPlugin : pluginParam) : list Event :=
  let dst := path_Join pluginsDir (pluginFileName (loc (LocatorWithChecksums currPlugin))) in
  [EvStat dst]
  ++ (if decide (is_Some (Checksums (LocatorWithChecksums currPlugin) !! osArch))
      then [EvChecksum dst] else [])
  ++ [EvInfo dst].

(** ** The compatibility checker *)

(** The names of [info.Tasks("")]. *)
Definition taskNames (info : Info) : list string :=
  map Name (Info_Tasks info "").

(** [commonTasks] of [verifySinglePluginCompatibility]: the sorted task
    names of the current plugin that the other plugin also provides. *)
Definition commonTasks (currPluginInfo otherPluginInfo : Info) : list string :=
  let currPluginTasks := sort_Strings (taskNames currPluginInfo) in
  let otherPluginTasks : gset string := list_to_set (taskNames otherPluginInfo) in
  filter (fun currPluginTask => currPluginTask ∈ otherPluginTasks) currPluginTasks.

(** What one iteration of the loop over [plugins] stores in
    [errs[otherPlugin]], if anything. *)
Definition conflictWith (plugin : locator) (plugins : gmap locator Info)
    (otherPlugin : locator) (otherPluginInfo : Info) : option string :=
  if bool_decide (otherPlugin = plugin) then None
  else if bool_decide (Group otherPlugin = Group plugin)
          && bool_decide (Product otherPlugin = Product plugin)
  then Some "different version of the same plugin"
  else
    let currPluginInfo := plugins !!! plugin in
    let common := commonTasks currPluginInfo otherPluginInfo in
    if Nat.eqb (length common) 0 then None
    else Some ("provides conflicting tasks: " +:+ GoStr.fmt_v_strings common).

(** Each iteration writes at most the entry of its own key, so the
    range loop is the keyed map of its body. *)
Definition verifySinglePluginCompatibility (plugin : locator)
    (plugins : gmap locator Info) : gmap locator string :=
  map_imap (conflictWith plugin plugins) plugins.

(** The [conflicts] map of [verifyPluginCompatibility]. *)
Definition pluginConflicts (plugins : gmap locator Info)
    : gmap locator (gmap locator string) :=
  map_imap (fun currPlugin _ =>
              let currConflicts := verifySinglePluginCompatibility currPlugin plugins in
              if Nat.eqb (size currConflicts) 0 then None else Some currConflicts)
           plugins.

(** The lines appended for one outer key. *)
Definition conflictLines (conflicts : gmap locator (gmap locator string))
    (errString : string) (k : locator) : string :=
  let errString :=
    errString +:+ GoStr.nl +:+ GoStr.Repeat " " indentSpaces
              +:+ locator_String k +:+ ":" in
  let sortedInnerKeys := sortLocators (mapKeys (conflicts !!! k)) in
  fold_left (fun errString innerK =>
               errString +:+ GoStr.nl +:+ GoStr.Repeat " " (indentSpaces * 2)
                         +:+ ((conflicts !!! k) !!! innerK))
            sortedInnerKeys errString.

Definition verifyPluginCompatibility (plugins : gmap locator Info) : option string :=
  let conflicts := pluginConflicts plugins in
  if Nat.eqb (size conflicts) 0 then None
  else
    let sortedOuterKeys := sortLocators (mapKeys conflicts) in
    let errString :=
      GoStr.fmt_d (size conflicts) +:+ " plugins had compatibility issues:" in
    Some (fold_left (conflictLines conflicts) sortedOuterKeys errString).

(** ** The aggregator *)

Definition LoadPluginsTasks (cfg : PluginsConfig) : M (list Task * option string) :=
  match projectParamsFromConfig cfg with
  | Err err => ret ([], Some err)
  | Ok params =>
      match GodelHomeSpecDir with
      | Err err =>
          ret ([], Some (GoStr.Wrapf err "failed to create gödel home directory"))
      | Ok (pluginsDir, downloadsDir) =>
          r <- resolvePlugins pluginsDir downloadsDir osarch_Current params ;;
          match r with
          | Err err => ret ([], Some err)
          | Ok plugins =>
              match verifyPluginCompatibility plugins with
              | Some err => ret ([], Some err)
              | None =>
                  let sortedLocators := sortLocators (mapKeys plugins) in
                  ret (flat_map (fun locator =>
                                   let pluginExecPath := pluginPath pluginsDir locator in
                                   Info_Tasks (plugins !!! locator) pluginExecPath)
                                sortedLocators,
                       None)
              end
          end
      end
  end.

End Core.

(** Two resolved plugins conflict when they are two versions of one
    plugin or provide a task of the same name. *)
Definition pluginsConflict (plugins : gmap locator Info) (P Q : locator) : Prop :=
  exists infoP infoQ,
    plugins !! P = Some infoP
    /\ plugins !! Q = Some infoQ
    /\ P <> Q
    /\ ((Group P = Group Q /\ Product P = Product Q)
        \/ (exists t, t ∈ taskNames infoP /\ t ∈ taskNames infoQ)).

(** ** The task binder *)

(** The launcher's global parameters. *)
Record GlobalParams := {
  ProjectDir : string;
  Debug : bool;
}.

(** How the launcher reaches a plugin task: by its name with the
    user's tail arguments, or from the verify task. *)
Inductive Invocation : Type :=
| Direct (tail : list string)
| VerifyMode (apply : bool) (tail : list string).

Definition declared (flag : string) : bool :=
  negb (String.eqb flag "").

(** Modelled from the spec: the runner of a plugin task is declared
    outside the given sources. For each global flag convention the
    task declared, the flag and its value: the debug flag alone and
    only when debug is active, the project directory, the top-level
    configuration file, the plugin's configuration file. *)
Definition globalFlagArgs (g : GlobalParams) (t : Task) : list string :=
  let o := TaskGlobalFlagOptions (TaskDecl t) in
  (if Debug g && declared (DebugFlag o) then [DebugFlag o] else [])
  ++ (if declared (ProjectDirFlag o) then [ProjectDirFlag o; ProjectDir g] else [])
  ++ (if declared (GodelConfigFlag o)
      then [GodelConfigFlag o; ProjectDir g +:+ "/godel/config/godel.yml"] else [])
  ++ (if declared (ConfigFlag o)
      then [ConfigFlag o; ProjectDir g +:+ "/godel/config/" +:+ TaskConfigFile t]
      else []).

(** Modelled from the spec: the arguments that follow the task's
    command. Verify mode passes no user tail; with apply=false the
    declared tokens are appended. *)
Definition trailingArgs (t : Task) (inv : Invocation) : list string :=
  match inv with
  | Direct tail => tail
  | VerifyMode true _ => []
  | VerifyMode false _ => ApplyFalseArgs (TaskVerifyOptions (TaskDecl t))
  end.

(** Modelled from the spec: the argv of the plugin subprocess; the
    executable path, the global flags, the command, the trailing
    arguments. *)
Definition taskArgv (g : GlobalParams) (t : Task) (inv : Invocation) : list string :=
  TaskExecPath t :: globalFlagArgs g t ++ [TaskCommand (TaskDecl t)] ++ trailingArgs t inv.

(** ** A concrete environment *)

Module Sample.

(** The echo plugin of [TestPlugins]. *)
Definition echoTask : TaskInfo :=
  {| TaskName := "echo-task";
     TaskDescription := "Echoes input";
     TaskCommand := "echo";
     TaskGlobalFlagOptions :=
       {| DebugFlag := "--debug"; ProjectDirFlag := "--project-dir";
          GodelConfigFlag := "--godel-config"; ConfigFlag := "--config" |};
     TaskVerifyOptions := {| ApplyFalseArgs := ["--verify"] |} |}.

Definition lintTask : TaskInfo :=
  {| TaskName := "lint";
     TaskDescription := "Lints";
     TaskCommand := "lint";
     TaskGlobalFlagOptions :=
       {| DebugFlag := ""; ProjectDirFlag := "--project-dir";
          GodelConfigFlag := ""; ConfigFlag := "" |};
     TaskVerifyOptions := {| ApplyFalseArgs := [] |} |}.

Definition mkInfo (g p v : string) (ts : list TaskInfo) : Info :=
  {| InfoGroup := g; InfoProduct := p; InfoVersion := v;
     ConfigFileName := p +:+ ".yml"; InfoTasks := ts |}.

Definition echoInfo : Info := mkInfo "com.palantir" "echo" "1.0.0" [echoTask].

Definition echoLoc : locator := Locator "com.palantir" "echo" "1.0.0".
Definition echo2Loc : locator := Locator "com.palantir" "echo" "2.0.0".
Definition aLoc : locator := Locator "com.palantir" "a" "1.0.0".
Definition bLoc : locator := Locator "com.palantir" "b" "1.0.0".
Definition brokenLoc : locator := Locator "com.palantir" "broken" "1.0.0".
Definition goneLoc : locator := Locator "com.palantir" "gone" "1.0.0".

Definition hostOSArch : OSArch := ("linux", "amd64").

(** Plugin binaries are named by their content: the bytes ["echo"] are
    the echo plugin, ["a"] and ["b"] are two plugins that both provide
    [lint]; anything else does not answer the info command. *)
Definition probe (content : string) : result Info :=
  if String.eqb content "echo" then Ok echoInfo
  else if String.eqb content "echo2" then
    Ok (mkInfo "com.palantir" "echo" "2.0.0" [echoTask])
  else if String.eqb content "a" then Ok (mkInfo "com.palantir" "a" "1.0.0" [lintTask])
  else if String.eqb content "b" then
    Ok (mkInfo "com.palantir" "b" "1.0.0" [lintTask; echoTask])
  else Err "exit status 1".

(** The repository serves every product but ["gone"]; the archive of a
    product holds the product's name as its single file. *)
Definition fetchFromRepo (currPlugin : pluginParam) (defaultResolvers : list string)
    (osArch : OSArch) (tgzDstPath : string) (fs : gmap string string)
    : gmap string string * option string :=
  let l := loc (LocatorWithChecksums currPlugin) in
  if String.eqb (Product l) "gone" then
    (fs, Some ("failed to resolve plugin " +:+ locator_String l))
  else (<[tgzDstPath := "tgz:" +:+ Product l]> fs, None).

(** The archive of ["broken"] is cut short: three bytes reach the
    destination before the reader fails. *)
Definition unpack (tgz : string) : string * option string :=
  if String.eqb tgz "tgz:broken" then ("bro", Some "unexpected EOF")
  else (String.substring 4 (String.length tgz - 4) tgz, None).

(** A digest that is the true SHA-256 on the empty file; on any other
    content a fixed lower-case digest stands in for it. *)
Definition digest (content : string) : string :=
  if String.eqb content "" then
    "e3b0c44298fc1c149afbf4c8996fb92427ae41e4649b934ca495991b7852b855"
  else "5891b5b522d5df086d0ff0b110fbd9d21bb4fc7163af34d08286a2e846f6be03".

Definition plain (l : locator) : pluginParam :=
  {| LocatorWithChecksums := {| loc := l; Checksums := ∅ |}; Resolver := "" |}.

Definition withChecksum (l : locator) (sum : string) : pluginParam :=
  {| LocatorWithChecksums := {| loc := l; Checksums := {[ hostOSArch := sum ]} |};
     Resolver := "" |}.

Definition params (ps : list pluginParam) : projectParams :=
  {| DefaultResolvers := ["/repo/{{GroupPath}}/{{Product}}/{{Version}}/{{Product}}-{{OS}}-{{Arch}}-{{Version}}.tgz"];
     Plugins := ps |}.

Definition emptyWorld : World := {| files := ∅; trace := [] |}.

(** The environment, for a given order of map iteration. *)
Definition sampleEnv (order : list locator -> list locator) : Env :=
  {| resolvePluginTGZ := fetchFromRepo;
     copyPluginTGZContent := unpack;
     sha256hex := digest;
     infoOutput := probe;
     openFile_fault := fun _ _ => None;
     close_fault := fun _ => None;
     rangeOrder := order;
     PluginsConfig := list pluginParam;
     projectParamsFromConfig := fun ps => Ok (params ps);
     GodelHomeSpecDir := Ok ("plugins", "downloads");
     osarch_Current := hostOSArch |}.

Definition resolve (order : list locator -> list locator) (ps : list pluginParam)
    : M (result (gmap locator Info)) :=
  @resolvePlugins (sampleEnv order) "plugins" "downloads" hostOSArch (params ps).

Definition load (order : list locator -> list locator) (ps : list pluginParam)
    : M (list Task * option string) :=
  @LoadPluginsTasks (sampleEnv order) ps.

(** What the echo plugin of [TestPlugins] prints for each task of
    [info] invoked as [inv]: its arguments, separated by spaces. *)
Definition echoed (g : GlobalParams) (info : Info) (inv : Invocation) : list string :=
  map (fun t => GoStr.Join (tail (taskArgv g t inv)) " ")
      (Info_Tasks info "/home/.godel/plugins/com.palantir-echo-1.0.0").

End Sample.

(** ** Definitions for further properties *)

(** Whether a result is a success. *)
Definition is_Ok {A} (r : result A) : bool :=
  match r with
  | Ok _ => true
  | Err _ => false
  end.


(** The environment [env] with map iteration in the order [order]. *)
Definition withOrder (env : Env) (order : list locator -> list locator) : Env :=
  {| resolvePluginTGZ := @resolvePluginTGZ env;
     copyPluginTGZContent := @copyPluginTGZContent env;
     sha256hex := @sha256hex env;
     infoOutput := @infoOutput env;
     openFile_fault := @openFile_fault env;
     close_fault := @close_fault env;
     rangeOrder := order;
     PluginsConfig := @PluginsConfig env;
     projectParamsFromConfig := @projectParamsFromConfig env;
     GodelHomeSpecDir := @GodelHomeSpecDir env;
     osarch_Current := @osarch_Current env |}.

(** ** The IDEA task (package [builtintasks]) *)

Module Idea.











End Idea.

(** * Properties *)

(** ** The order of strings *)

Lemma ascii_compare_lt_trans a b c :
  Ascii.compare a b = Lt -> Ascii.compare b c = Lt -> Ascii.compare a c = Lt.
Proof.
  unfold Ascii.compare. rewrite !N.compare_lt_iff. lia.
Qed.

Lemma string_compare_refl s : String.compare s s = Eq.
Proof.
  induction s as [|a s IH]; simpl; [done|].
  assert (Ascii.compare a a = Eq) as ->; [|done].
  unfold Ascii.compare. apply N.compare_refl.
Qed.

Lemma string_compare_lt_trans s1 s2 s3 :
  String.compare s1 s2 = Lt -> String.compare s2 s3 = Lt -> String.compare s1 s3 = Lt.
Proof.
  revert s2 s3. induction s1 as [|a s1 IH]; intros [|b s2] [|c s3]; simpl; try done.
  destruct (Ascii.compare a b) eqn:Hab; destruct (Ascii.compare b c) eqn:Hbc;
    try done; intros H1 H2.
  - apply Ascii.compare_eq_iff in Hab, Hbc. subst.
    assert (Ascii.compare c c = Eq) as ->
      by (unfold Ascii.compare; apply N.compare_refl).
    eauto.
  - apply Ascii.compare_eq_iff in Hab. subst. by rewrite Hbc.
  - apply Ascii.compare_eq_iff in Hbc. subst. by rewrite Hab.
  - by rewrite (ascii_compare_lt_trans _ _ _ Hab Hbc).
Qed.

Lemma GoStr_lt_asym s1 s2 : GoStr.lt s1 s2 = true -> GoStr.lt s2 s1 = false.
Proof.
  unfold GoStr.lt, String.ltb. rewrite (String.compare_antisym s2 s1).
  by destruct (String.compare s1 s2).
Qed.

Lemma GoStr_lt_irrefl s : GoStr.lt s s = false.
Proof. unfold GoStr.lt, String.ltb. by rewrite string_compare_refl. Qed.

#[global] Instance GoStr_le_dec s1 s2 : Decision (GoStr.le s1 s2).
Proof. unfold GoStr.le. apply _. Defined.

#[global] Instance GoStr_le_refl : Reflexive GoStr.le.
Proof. intros s. apply GoStr_lt_irrefl. Qed.

#[global] Instance GoStr_le_trans : Transitive GoStr.le.
Proof.
  intros a b c. unfold GoStr.le, String.ltb. intros Hba Hcb.
  destruct (String.compare c a) eqn:Hca; try done.
  destruct (String.compare c b) eqn:Hcb'; try done.
  - apply String.compare_eq_iff in Hcb'. subst. by rewrite Hca in Hba.
  - rewrite (String.compare_antisym c b) in Hcb'.
    destruct (String.compare b c) eqn:Hbc; try done.
    by rewrite (string_compare_lt_trans _ _ _ Hbc Hca) in Hba.
Qed.

#[global] Instance GoStr_le_total : Total GoStr.le.
Proof.
  intros a b. unfold GoStr.le.
  destruct (String.ltb b a) eqn:H; [right|by left].
  by apply GoStr_lt_asym.
Qed.

#[global] Instance GoStr_le_antisym : AntiSymm (=) GoStr.le.
Proof.
  intros a b. unfold GoStr.le, String.ltb. intros Hba Hab.
  rewrite (String.compare_antisym a b) in Hab.
  destruct (String.compare b a) eqn:H; try done.
  symmetry. by apply String.compare_eq_iff.
Qed.

#[global] Instance locator_le_dec a b : Decision (locator_le a b).
Proof. unfold locator_le. apply _. Defined.

#[global] Instance locator_le_trans : Transitive locator_le.
Proof. intros a b c. unfold locator_le. apply GoStr_le_trans. Qed.

#[global] Instance locator_le_total : Total locator_le.
Proof. intros a b. unfold locator_le. apply GoStr_le_total. Qed.

(** ** [sort.Slice] sorts *)

Section Sorting.

Context {A : Type} (less : A -> A -> bool).

Let R (x y : A) : Prop := less y x = false.

Hypothesis less_asym : forall x y, less x y = true -> less y x = false.

Lemma insert_sorted_Permutation x l : insert_sorted less x l ≡ₚ x :: l.
Proof.
  induction l as [|y l IH]; simpl; [done|].
  destruct (less x y); [done|]. rewrite IH. apply Permutation_swap.
Qed.

Lemma sort_Slice_acc_Permutation l acc :
  fold_left (fun acc x => insert_sorted less x acc) l acc ≡ₚ acc ++ l.
Proof.
  revert acc. induction l as [|x l IH]; intros acc; simpl.
  - by rewrite app_nil_r.
  - rewrite IH, insert_sorted_Permutation. simpl. apply Permutation_middle.
Qed.

Lemma sort_Slice_Permutation l : sort_Slice less l ≡ₚ l.
Proof. unfold sort_Slice. by rewrite sort_Slice_acc_Permutation. Qed.

Lemma insert_sorted_HdRel a x l :
  R a x -> HdRel R a l -> HdRel R a (insert_sorted less x l).
Proof.
  intros Hax Hl. destruct l as [|y l]; simpl; [by constructor|].
  destruct (less x y); constructor; [done|]. by inversion Hl.
Qed.

Lemma insert_sorted_Sorted x l : Sorted R l -> Sorted R (insert_sorted less x l).
Proof.
  induction 1 as [|y l Hl IH Hhd]; simpl; [by repeat constructor|].
  destruct (less x y) eqn:Hxy.
  - constructor; [by constructor|]. constructor. by apply less_asym.
  - constructor; [done|]. by apply insert_sorted_HdRel.
Qed.

Lemma sort_Slice_Sorted l : Sorted R (sort_Slice less l).
Proof.
  unfold sort_Slice. assert (Sorted R []) as Hacc by constructor.
  revert Hacc. generalize (@nil A). induction l as [|x l IH]; intros acc Hacc; simpl.
  - done.
  - apply IH. by apply insert_sorted_Sorted.
Qed.

End Sorting.

Lemma sortLocators_Permutation locs : sortLocators locs ≡ₚ locs.
Proof. apply sort_Slice_Permutation. Qed.

Lemma sortLocators_sorted locs : StronglySorted locator_le (sortLocators locs).
Proof.
  apply Sorted_StronglySorted; [apply _|].
  apply (sort_Slice_Sorted locator_less).
  intros x y. apply GoStr_lt_asym.
Qed.

Lemma sort_Strings_Permutation l : sort_Strings l ≡ₚ l.
Proof. apply sort_Slice_Permutation. Qed.


(** ** The compatibility checker *)

Lemma elem_of_commonTasks t a b :
  t ∈ commonTasks a b <-> t ∈ taskNames a /\ t ∈ taskNames b.
Proof.
  unfold commonTasks. rewrite list_elem_of_filter, elem_of_list_to_set.
  rewrite (sort_Strings_Permutation (taskNames a)). tauto.
Qed.



Lemma verifySingle_lookup plugin plugins other :
  verifySinglePluginCompatibility plugin plugins !! other
  = plugins !! other ≫= conflictWith plugin plugins other.
Proof. apply map_lookup_imap. Qed.

Lemma conflictWith_same_product plugin plugins other info :
  other <> plugin -> Group other = Group plugin -> Product other = Product plugin ->
  conflictWith plugin plugins other info = Some "different version of the same plugin".
Proof.
  intros Hne Hg Hp. unfold conflictWith.
  rewrite bool_decide_eq_false_2 by done.
  by rewrite !bool_decide_eq_true_2 by done.
Qed.

Lemma conflictWith_tasks plugin plugins other info :
  other <> plugin -> ~ (Group other = Group plugin /\ Product other = Product plugin) ->
  conflictWith plugin plugins other info
  = let common := commonTasks (plugins !!! plugin) info in
    if Nat.eqb (length common) 0 then None
    else Some ("provides conflicting tasks: " +:+ GoStr.fmt_v_strings common).
Proof.
  intros Hne Hgp. unfold conflictWith.
  rewrite bool_decide_eq_false_2 by done.
  destruct (bool_decide (Group other = Group plugin)) eqn:Hg;
    destruct (bool_decide (Product other = Product plugin)) eqn:Hp; simpl; try done.
  apply bool_decide_eq_true in Hg, Hp. tauto.
Qed.

(** C10. For two resolved plugins that share group and product, each
    side's entry for the other is the conflict ["different version of
    the same plugin"] and nothing else: it is the same whatever tasks
    the two plugins declare, so no task-name conflict is reported for
    the pair. *)
Theorem same_product_hides_task_conflicts
    (plugins : gmap locator Info) (plugin other : locator) (pluginInfo otherInfo : Info) :
  plugins !! plugin = Some pluginInfo ->
  plugins !! other = Some otherInfo ->
  other <> plugin ->
  Group other = Group plugin ->
  Product other = Product plugin ->
  verifySinglePluginCompatibility plugin plugins !! other
    = Some "different version of the same plugin"
  /\ verifySinglePluginCompatibility other plugins !! plugin
    = Some "different version of the same plugin"
  /\ forall pluginInfo' otherInfo',
       verifySinglePluginCompatibility plugin
         (<[plugin := pluginInfo']> (<[other := otherInfo']> plugins)) !! other
       = verifySinglePluginCompatibility plugin plugins !! other.
Proof.
  intros HP HQ Hne Hg Hp. rewrite !verifySingle_lookup, HP, HQ. simpl.
  rewrite !conflictWith_same_product by done. split_and!; try done.
  intros pi' oi'. rewrite verifySingle_lookup.
  rewrite lookup_insert_ne by done. rewrite lookup_insert_eq. simpl.
  by rewrite conflictWith_same_product.
Qed.

(** The entries two plugins that conflict have for each other. *)
Lemma conflict_entries
    (plugins : gmap locator Info) (P Q : locator) (infoP infoQ : Info) :
  plugins !! P = Some infoP ->
  plugins !! Q = Some infoQ ->
  P <> Q ->
  (Group P = Group Q /\ Product P = Product Q ->
     verifySinglePluginCompatibility P plugins !! Q
       = Some "different version of the same plugin"
     /\ verifySinglePluginCompatibility Q plugins !! P
       = Some "different version of the same plugin")
  /\ (forall t,
        ~ (Group P = Group Q /\ Product P = Product Q) ->
        t ∈ taskNames infoP -> t ∈ taskNames infoQ ->
        verifySinglePluginCompatibility P plugins !! Q
          = Some ("provides conflicting tasks: "
                  +:+ GoStr.fmt_v_strings (commonTasks infoP infoQ))
        /\ verifySinglePluginCompatibility Q plugins !! P
          = Some ("provides conflicting tasks: "
                  +:+ GoStr.fmt_v_strings (commonTasks infoQ infoP))
        /\ t ∈ commonTasks infoP infoQ
        /\ t ∈ commonTasks infoQ infoP).
Proof.
  intros HP HQ Hne. rewrite !verifySingle_lookup, HP, HQ. simpl. split.
  - intros [Hg Hp]. by rewrite !conflictWith_same_product.
  - intros t Hgp HtP HtQ.
    assert (t ∈ commonTasks infoP infoQ) as H1 by (by apply elem_of_commonTasks).
    assert (t ∈ commonTasks infoQ infoP) as H2 by (by apply elem_of_commonTasks).
    rewrite !conflictWith_tasks by (try done; intros [??]; apply Hgp; done).
    rewrite !lookup_total_alt, HP, HQ. simpl.
    destruct (commonTasks infoP infoQ) as [|x l] eqn:E1; [by apply elem_of_nil in H1|].
    destruct (commonTasks infoQ infoP) as [|y l'] eqn:E2; [by apply elem_of_nil in H2|].
    done.
Qed.

Lemma string_app_assoc (s1 s2 s3 : string) : (s1 +:+ s2) +:+ s3 = s1 +:+ s2 +:+ s3.
Proof. induction s1 as [|a s1 IH]; [done|]. change (String a ((s1 +:+ s2) +:+ s3) = String a (s1 +:+ s2 +:+ s3)). by f_equal. Qed.

Lemma string_app_nil_r (s : string) : s +:+ "" = s.
Proof. induction s as [|a s IH]; [done|]. change (String a (s +:+ "") = String a s). by f_equal. Qed.

Lemma fold_left_append {A} (f : A -> string) (l : list A) (acc : string) :
  fold_left (fun acc x => acc +:+ f x) l acc = acc +:+ GoStr.concat (map f l).
Proof.
  revert acc. induction l as [|x l IH]; intros acc; simpl.
  - by rewrite string_app_nil_r.
  - by rewrite IH, string_app_assoc.
Qed.

Lemma fold_left_ext_strong {A B} (f g : B -> A -> B) (l : list A) (b : B) :
  (forall b x, f b x = g b x) -> fold_left f l b = fold_left g l b.
Proof.
  intros Hfg. revert b. induction l as [|x l IH]; intros b; simpl; [done|].
  by rewrite Hfg, IH.
Qed.

Section Compatibility.

Context {env : Env}.

Lemma mapKeys_Permutation {V} (m : gmap locator V) :
  rangeOrder_ok env -> mapKeys m ≡ₚ elements (dom m).
Proof. intros Hok. apply Hok. Qed.

Lemma pluginConflicts_lookup plugins k :
  pluginConflicts plugins !! k
  = match plugins !! k with
    | Some _ =>
        if Nat.eqb (size (verifySinglePluginCompatibility k plugins)) 0 then None
        else Some (verifySinglePluginCompatibility k plugins)
    | None => None
    end.
Proof.
  unfold pluginConflicts. rewrite map_lookup_imap.
  by destruct (plugins !! k).
Qed.


(** The error text of [verifyPluginCompatibility], as one expression:
    a header, then for each outer key its own line and the lines of its
    inner keys. *)
Lemma conflictLines_concat conflicts errString k :
  conflictLines conflicts errString k
  = errString +:+
    (GoStr.nl +:+ "    " +:+ locator_String k +:+ ":" +:+
     GoStr.concat (map (fun innerK => GoStr.nl +:+ "        "
                                     +:+ ((conflicts !!! k) !!! innerK))
                       (sortLocators (mapKeys (conflicts !!! k))))).
Proof.
  unfold conflictLines. rewrite fold_left_append. simpl GoStr.Repeat.
  by rewrite !string_app_assoc.
Qed.

Lemma verifyPluginCompatibility_text plugins :
  verifyPluginCompatibility plugins
  = let conflicts := pluginConflicts plugins in
    if Nat.eqb (size conflicts) 0 then None
    else Some
      (GoStr.fmt_d (size conflicts) +:+ " plugins had compatibility issues:" +:+
       GoStr.concat
         (map (fun k =>
                 GoStr.nl +:+ "    " +:+ locator_String k +:+ ":" +:+
                 GoStr.concat
                   (map (fun innerK => GoStr.nl +:+ "        "
                                       +:+ ((conflicts !!! k) !!! innerK))
                        (sortLocators (mapKeys (conflicts !!! k)))))
              (sortLocators (mapKeys conflicts)))).
Proof.
  unfold verifyPluginCompatibility. cbv zeta.
  destruct (Nat.eqb (size (pluginConflicts plugins)) 0); [done|]. f_equal.
  rewrite (fold_left_ext_strong _ _ _ _ (conflictLines_concat (pluginConflicts plugins))).
  by rewrite fold_left_append, string_app_assoc.
Qed.


End Compatibility.

Section Loading.

Context {env : Env}.

Lemma conflict_makes_entry plugins P Q infoP infoQ :
  plugins !! P = Some infoP ->
  plugins !! Q = Some infoQ ->
  P <> Q ->
  (Group P = Group Q /\ Product P = Product Q)
  \/ (exists t, t ∈ taskNames infoP /\ t ∈ taskNames infoQ) ->
  is_Some (verifySinglePluginCompatibility P plugins !! Q).
Proof.
  intros HP HQ Hne Hc.
  destruct (conflict_entries plugins P Q infoP infoQ HP HQ Hne)
    as [Hsame Htask].
  destruct (decide (Group P = Group Q /\ Product P = Product Q)) as [Hgp|Hgp].
  - destruct (Hsame Hgp) as [-> _]. eauto.
  - destruct Hc as [?|(t & HtP & HtQ)]; [done|].
    destruct (Htask t Hgp HtP HtQ) as (-> & _). eauto.
Qed.


Lemma pluginConflicts_entry plugins P Q info :
  plugins !! P = Some info ->
  is_Some (verifySinglePluginCompatibility P plugins !! Q) ->
  pluginConflicts plugins !! P = Some (verifySinglePluginCompatibility P plugins).
Proof.
  intros HP [msg Hmsg]. rewrite pluginConflicts_lookup, HP.
  destruct (Nat.eqb (size (verifySinglePluginCompatibility P plugins)) 0) eqn:E; [|done].
  apply Nat.eqb_eq, map_size_empty_iff in E. by rewrite E in Hmsg.
Qed.

(** C6. Conflicts are reported from both sides: when two resolved
    plugins share group and product, each one's conflict list holds the
    other with the version conflict; otherwise, when they provide a
    task of the same name, each one's conflict list holds the other
    with a task conflict whose names include that task. Either way both
    plugins are keys of the reported conflicts, each with its own
    list. *)
Theorem conflict_reported_from_both_sides
    (plugins : gmap locator Info) (P Q : locator) (infoP infoQ : Info) :
  plugins !! P = Some infoP ->
  plugins !! Q = Some infoQ ->
  P <> Q ->
  (Group P = Group Q /\ Product P = Product Q ->
     verifySinglePluginCompatibility P plugins !! Q
       = Some "different version of the same plugin"
     /\ verifySinglePluginCompatibility Q plugins !! P
       = Some "different version of the same plugin"
     /\ pluginConflicts plugins !! P = Some (verifySinglePluginCompatibility P plugins)
     /\ pluginConflicts plugins !! Q = Some (verifySinglePluginCompatibility Q plugins))
  /\ (forall t,
        ~ (Group P = Group Q /\ Product P = Product Q) ->
        t ∈ taskNames infoP -> t ∈ taskNames infoQ ->
        verifySinglePluginCompatibility P plugins !! Q
          = Some ("provides conflicting tasks: "
                  +:+ GoStr.fmt_v_strings (commonTasks infoP infoQ))
        /\ verifySinglePluginCompatibility Q plugins !! P
          = Some ("provides conflicting tasks: "
                  +:+ GoStr.fmt_v_strings (commonTasks infoQ infoP))
        /\ t ∈ commonTasks infoP infoQ
        /\ t ∈ commonTasks infoQ infoP
        /\ pluginConflicts plugins !! P = Some (verifySinglePluginCompatibility P plugins)
        /\ pluginConflicts plugins !! Q = Some (verifySinglePluginCompatibility Q plugins)).
Proof.
  intros HP HQ Hne.
  destruct (conflict_entries plugins P Q infoP infoQ HP HQ Hne) as [Hsame Htask].
  split.
  - intros Hgp. destruct (Hsame Hgp) as [H1 H2]. split_and!; [done..| |].
    + eapply pluginConflicts_entry; [done|]. rewrite H1. eauto.
    + eapply pluginConflicts_entry; [done|]. rewrite H2. eauto.
  - intros t Hgp HtP HtQ. destruct (Htask t Hgp HtP HtQ) as (H1 & H2 & H3 & H4).
    split_and!; [done..| |].
    + eapply pluginConflicts_entry; [done|]. rewrite H1. eauto.
    + eapply pluginConflicts_entry; [done|]. rewrite H2. eauto.
Qed.

Lemma LoadPluginsTasks_after_resolve cfg params pluginsDir downloadsDir w w' plugins :
  projectParamsFromConfig cfg = Ok params ->
  GodelHomeSpecDir = Ok (pluginsDir, downloadsDir) ->
  resolvePlugins pluginsDir downloadsDir osarch_Current params w = (w', Ok plugins) ->
  LoadPluginsTasks cfg w
  = (w', match verifyPluginCompatibility plugins with
         | Some err => ([], Some err)
         | None =>
             (flat_map (fun locator =>
                          Info_Tasks (plugins !!! locator) (pluginPath pluginsDir locator))
                       (sortLocators (mapKeys plugins)), None)
         end).
Proof.
  intros Hp Hd Hr. unfold LoadPluginsTasks. rewrite Hp, Hd.
  unfold bind. rewrite Hr. by destruct (verifyPluginCompatibility plugins).
Qed.

Lemma LoadPluginsTasks_success_inv cfg w w' tasks :
  LoadPluginsTasks cfg w = (w', (tasks, None)) ->
  exists params pluginsDir downloadsDir plugins,
    projectParamsFromConfig cfg = Ok params
    /\ GodelHomeSpecDir = Ok (pluginsDir, downloadsDir)
    /\ resolvePlugins pluginsDir downloadsDir osarch_Current params w = (w', Ok plugins)
    /\ verifyPluginCompatibility plugins = None
    /\ tasks = flat_map (fun locator =>
                           Info_Tasks (plugins !!! locator) (pluginPath pluginsDir locator))
                        (sortLocators (mapKeys plugins)).
Proof.
  unfold LoadPluginsTasks.
  destruct (projectParamsFromConfig cfg) as [params|e] eqn:Hp; [|done].
  destruct GodelHomeSpecDir as [[pluginsDir downloadsDir]|e] eqn:Hd; [|done].
  unfold bind.
  destruct (resolvePlugins pluginsDir downloadsDir osarch_Current params w)
    as [w1 [plugins|e]] eqn:Hr; [|done].
  destruct (verifyPluginCompatibility plugins) eqn:Hv; [done|].
  unfold ret. intros [= <- <-]. by exists params, pluginsDir, downloadsDir, plugins.
Qed.

End Loading.

(** C7. A successful load returns the tasks of the resolved plugins
    concatenated plugin by plugin: the plugins in the order of their
    locators' string forms, and the tasks of each plugin in the order
    the plugin declares them. *)
Theorem tasks_sorted_by_locator_then_declaration `{env : Env}
    (cfg : PluginsConfig) (w w' : World) (tasks : list Task) :
  rangeOrder_ok env ->
  LoadPluginsTasks cfg w = (w', (tasks, None)) ->
  exists params pluginsDir downloadsDir plugins sortedLocators,
    projectParamsFromConfig cfg = Ok params
    /\ GodelHomeSpecDir = Ok (pluginsDir, downloadsDir)
    /\ resolvePlugins pluginsDir downloadsDir osarch_Current params w = (w', Ok plugins)
    /\ sortedLocators ≡ₚ elements (dom plugins)
    /\ StronglySorted locator_le sortedLocators
    /\ tasks = concat (map (fun locator =>
                              Info_Tasks (plugins !!! locator)
                                         (pluginPath pluginsDir locator))
                           sortedLocators)
    /\ forall locator,
         map TaskDecl (Info_Tasks (plugins !!! locator) (pluginPath pluginsDir locator))
         = InfoTasks (plugins !!! locator)
         /\ map Name (Info_Tasks (plugins !!! locator) (pluginPath pluginsDir locator))
            = map TaskName (InfoTasks (plugins !!! locator)).
Proof.
  intros Hok Hload.
  destruct (LoadPluginsTasks_success_inv cfg w w' tasks Hload)
    as (params & pluginsDir & downloadsDir & plugins & Hp & Hd & Hr & Hv & ->).
  exists params, pluginsDir, downloadsDir, plugins, (sortLocators (mapKeys plugins)).
  split_and!; try done.
  - rewrite sortLocators_Permutation. by apply mapKeys_Permutation.
  - apply sortLocators_sorted.
  - apply flat_map_concat_map.
  - intros l. unfold Info_Tasks. rewrite !map_map. simpl. split; [|done].
    apply map_id.
Qed.

Lemma sortLocators_order_irrelevant (l1 l2 : list locator) :
  l1 ≡ₚ l2 ->
  (forall a b, a ∈ l1 -> b ∈ l1 -> locator_String a = locator_String b -> a = b) ->
  sortLocators l1 = sortLocators l2.
Proof.
  intros Hperm Hinj.
  apply (StronglySorted_unique_strong locator_le);
    [|apply sortLocators_sorted..|by rewrite !sortLocators_Permutation].
  intros x1 x2 Hx1 Hx2 H12 H21.
  rewrite sortLocators_Permutation in Hx1. rewrite sortLocators_Permutation, <-Hperm in Hx2.
  apply Hinj; [done..|]. by apply (anti_symm GoStr.le).
Qed.

Lemma verifySingle_dom plugin plugins other :
  other ∈ dom (verifySinglePluginCompatibility plugin plugins) -> other ∈ dom plugins.
Proof.
  rewrite !elem_of_dom, verifySingle_lookup. intros [msg H].
  destruct (plugins !! other); [eauto|done].
Qed.

Lemma pluginConflicts_dom plugins k :
  k ∈ dom (pluginConflicts plugins) -> k ∈ dom plugins.
Proof.
  rewrite !elem_of_dom, pluginConflicts_lookup. intros [c H].
  destruct (plugins !! k); [eauto|done].
Qed.

Lemma pluginConflicts_total plugins k :
  pluginConflicts plugins !!! k = verifySinglePluginCompatibility k plugins
  \/ pluginConflicts plugins !!! k = ∅.
Proof.
  rewrite lookup_total_alt, pluginConflicts_lookup.
  repeat case_match; simpl; eauto.
Qed.


Lemma verifyPluginCompatibility_order_irrelevant (env1 env2 : Env) plugins :
  rangeOrder_ok env1 -> rangeOrder_ok env2 ->
  (forall a b, a ∈ dom plugins -> b ∈ dom plugins ->
               locator_String a = locator_String b -> a = b) ->
  @verifyPluginCompatibility env1 plugins = @verifyPluginCompatibility env2 plugins.
Proof.
  intros H1 H2 Hinj. rewrite !verifyPluginCompatibility_text. cbv zeta.
  destruct (Nat.eqb (size (pluginConflicts plugins)) 0); [done|].
  assert (forall (m : gmap locator string),
            (forall k, k ∈ dom m -> k ∈ dom plugins) ->
            sortLocators (@mapKeys env1 _ m) = sortLocators (@mapKeys env2 _ m)) as Hin.
  { intros m Hm. apply sortLocators_order_irrelevant.
    - unfold mapKeys. by rewrite (H1 _), (H2 _).
    - intros a b Ha Hb. unfold mapKeys in Ha, Hb. rewrite (H1 _), elem_of_elements in Ha, Hb.
      apply Hinj; by apply Hm. }
  assert (sortLocators (@mapKeys env1 _ (pluginConflicts plugins))
          = sortLocators (@mapKeys env2 _ (pluginConflicts plugins))) as ->.
  { apply sortLocators_order_irrelevant.
    - unfold mapKeys. by rewrite (H1 _), (H2 _).
    - intros a b Ha Hb. unfold mapKeys in Ha, Hb. rewrite (H1 _), elem_of_elements in Ha, Hb.
      apply Hinj; by apply pluginConflicts_dom. }
  do 4 f_equal. apply map_ext. intros k.
  rewrite (Hin (pluginConflicts plugins !!! k)); [done|]. intros ik Hik.
  destruct (pluginConflicts_total plugins k) as [E|E]; rewrite E in Hik.
  - by apply verifySingle_dom in Hik.
  - by rewrite dom_empty in Hik.
Qed.


(** ** The resolver *)

Ltac io_unfold :=
  unfold resolvePlugin, ensureInstalled, verifyChecksum, InfoFromPlugin,
    sha256ChecksumFile, extractPlugin, run_copyPluginTGZContent, os_Open,
    os_OpenFile_create_trunc, run_resolvePluginTGZ, os_Stat_IsNotExist,
    file_Close, bind, ret, emit, get_files, set_files, pluginPath;
  cbn [fst snd files trace].

Ltac io_cases :=
  repeat (case_match; cbn [fst snd files trace] in * ); simplify_eq;
  cbn [fst snd files trace] in *.

Section ResolverFacts.

Context {env : Env}.

Variables (pluginsDir downloadsDir : string) (osArch : OSArch) (param : projectParams).

(** An iteration that finds the plugin installed. *)
Lemma ensureInstalled_present currPlugin w c :
  files w !! pluginPath pluginsDir (loc (LocatorWithChecksums currPlugin)) = Some c ->
  ensureInstalled pluginsDir downloadsDir osArch param currPlugin w
  = ({| files := files w;
        trace := trace w ++ [EvStat (pluginPath pluginsDir (loc (LocatorWithChecksums currPlugin)))] |},
     None).
Proof.
  intros Hc. unfold pluginPath in Hc. io_unfold.
  rewrite bool_decide_eq_false_2; [done|]. by rewrite Hc.
Qed.

Lemma ensureInstalled_trace currPlugin w :
  exists evs,
    trace (ensureInstalled pluginsDir downloadsDir osArch param currPlugin w).1
    = (trace w ++ EvStat (pluginPath pluginsDir (loc (LocatorWithChecksums currPlugin))) :: evs)%list.
Proof.
  io_unfold. io_cases; rewrite <-?app_assoc; eexists; simpl; reflexivity.
Qed.

Lemma verifyChecksum_trace currPlugin dst w :
  exists evs, trace (verifyChecksum osArch currPlugin dst w).1 = (trace w ++ evs)%list.
Proof.
  io_unfold. io_cases; rewrite <-?app_assoc; eexists; try reflexivity.
  by rewrite app_nil_r.
Qed.

Lemma resolvePlugin_trace currPlugin w :
  exists evs,
    trace (resolvePlugin pluginsDir downloadsDir osArch param currPlugin w).1
    = (trace w ++ EvStat (pluginPath pluginsDir (loc (LocatorWithChecksums currPlugin))) :: evs)%list.
Proof.
  unfold resolvePlugin, bind.
  destruct (ensureInstalled_trace currPlugin w) as [evs1 H1].
  destruct (ensureInstalled pluginsDir downloadsDir osArch param currPlugin w) as [w1 [e|]];
    cbn [fst] in H1.
  { unfold ret. cbn [fst]. eauto. }
  destruct (verifyChecksum_trace currPlugin
    (path_Join pluginsDir (pluginFileName (loc (LocatorWithChecksums currPlugin)))) w1)
    as [evs2 H2].
  destruct (verifyChecksum _ _ _ w1) as [w2 [e|]]; cbn [fst] in H2.
  { unfold ret. cbn [fst]. rewrite H2, H1, <-app_assoc. simpl. eauto. }
  io_unfold. io_cases; rewrite H2, H1, <-!app_assoc; simpl; eauto.
Qed.

(** The world of the loop does not depend on the two maps. *)
Lemma sweepPlugins_world todo plugins pluginErrors w :
  (sweepPlugins pluginsDir downloadsDir osArch param todo plugins pluginErrors w).1
  = worldAfter pluginsDir downloadsDir osArch param todo w.
Proof.
  revert plugins pluginErrors w.
  induction todo as [|cp todo IH]; intros plugins pluginErrors w; [done|].
  simpl. unfold bind.
  destruct (resolvePlugin pluginsDir downloadsDir osArch param cp w) as [w1 [info|e]];
    apply IH.
Qed.

Lemma worldAfter_app todo1 todo2 w :
  worldAfter pluginsDir downloadsDir osArch param (todo1 ++ todo2) w
  = worldAfter pluginsDir downloadsDir osArch param todo2
      (worldAfter pluginsDir downloadsDir osArch param todo1 w).
Proof. apply fold_left_app. Qed.

Lemma worldAfter_trace todo w :
  exists evs, trace (worldAfter pluginsDir downloadsDir osArch param todo w)
              = (trace w ++ evs)%list.
Proof.
  revert w. induction todo as [|cp todo IH]; intros w; simpl.
  - exists []. by rewrite app_nil_r.
  - destruct (IH (resolvePlugin pluginsDir downloadsDir osArch param cp w).1) as [evs ->].
    destruct (resolvePlugin_trace cp w) as [evs' ->]. rewrite <-app_assoc. eauto.
Qed.

(** No short circuit: the loop reaches every declared plugin. *)
Lemma worldAfter_attempts_all todo w currPlugin :
  currPlugin ∈ todo ->
  EvStat (pluginPath pluginsDir (loc (LocatorWithChecksums currPlugin)))
    ∈ trace (worldAfter pluginsDir downloadsDir osArch param todo w).
Proof.
  revert w. induction todo as [|cp todo IH]; intros w Hin; [by apply elem_of_nil in Hin|].
  apply elem_of_cons in Hin as [->|Hin]; simpl.
  - destruct (worldAfter_trace todo
      (resolvePlugin pluginsDir downloadsDir osArch param cp w).1) as [evs ->].
    destruct (resolvePlugin_trace cp w) as [evs' ->].
    rewrite !elem_of_app, elem_of_cons. eauto.
  - by apply IH.
Qed.


(** The two maps of the loop, read off the attempts. *)
Lemma sweepPlugins_errors_grow todo plugins pluginErrors w l :
  is_Some (pluginErrors !! l) ->
  is_Some ((sweepPlugins pluginsDir downloadsDir osArch param todo plugins pluginErrors w).2.2 !! l).
Proof.
  revert plugins pluginErrors w.
  induction todo as [|cp todo IH]; intros plugins pluginErrors w Hl; [done|].
  simpl. unfold bind.
  destruct (resolvePlugin pluginsDir downloadsDir osArch param cp w) as [w1 [info|e]];
    apply IH; [done|].
  rewrite lookup_insert. case_decide; eauto.
Qed.

Lemma sweepPlugins_failure_recorded todo plugins pluginErrors w j currPlugin err :
  todo !! j = Some currPlugin ->
  (resolvePlugin pluginsDir downloadsDir osArch param currPlugin
     (worldAfter pluginsDir downloadsDir osArch param (take j todo) w)).2 = Err err ->
  is_Some ((sweepPlugins pluginsDir downloadsDir osArch param todo plugins pluginErrors w).2.2
             !! loc (LocatorWithChecksums currPlugin)).
Proof.
  revert plugins pluginErrors w j.
  induction todo as [|cp todo IH]; intros plugins pluginErrors w j Hj Herr; [done|].
  simpl. unfold bind. destruct j as [|j]; simpl in Hj, Herr.
  - simplify_eq.
    destruct (resolvePlugin pluginsDir downloadsDir osArch param currPlugin w)
      as [w1 [info|e]]; [done|].
    apply sweepPlugins_errors_grow. rewrite lookup_insert_eq. eauto.
  - destruct (resolvePlugin pluginsDir downloadsDir osArch param cp w) as [w1 [info|e]];
      by eapply IH.
Qed.

Lemma sweepPlugins_error_origin todo plugins pluginErrors w l err :
  (sweepPlugins pluginsDir downloadsDir osArch param todo plugins pluginErrors w).2.2 !! l
    = Some err ->
  pluginErrors !! l = Some err
  \/ exists j currPlugin,
       todo !! j = Some currPlugin
       /\ loc (LocatorWithChecksums currPlugin) = l
       /\ (resolvePlugin pluginsDir downloadsDir osArch param currPlugin
             (worldAfter pluginsDir downloadsDir osArch param (take j todo) w)).2 = Err err.
Proof.
  revert plugins pluginErrors w.
  induction todo as [|cp todo IH]; intros plugins pluginErrors w; [by left|].
  simpl. unfold bind.
  destruct (resolvePlugin pluginsDir downloadsDir osArch param cp w) as [w1 [info|e]] eqn:Hr;
    intros H; apply IH in H as [H|(j & cp' & Hj & Hl & Hj')].
  - by left.
  - right. exists (S j), cp'. simpl. by rewrite Hr.
  - rewrite lookup_insert in H. case_decide; [|by left].
    simplify_eq. right. exists 0, cp. simpl. by rewrite Hr.
  - right. exists (S j), cp'. simpl. by rewrite Hr.
Qed.

(** Two runs whose attempts agree fill the two maps alike. *)
Lemma sweepPlugins_maps_ext todo plugins pluginErrors w v :
  (forall j currPlugin,
     todo !! j = Some currPlugin ->
     (resolvePlugin pluginsDir downloadsDir osArch param currPlugin
        (worldAfter pluginsDir downloadsDir osArch param (take j todo) w)).2
     = (resolvePlugin pluginsDir downloadsDir osArch param currPlugin
          (worldAfter pluginsDir downloadsDir osArch param (take j todo) v)).2) ->
  (sweepPlugins pluginsDir downloadsDir osArch param todo plugins pluginErrors w).2
  = (sweepPlugins pluginsDir downloadsDir osArch param todo plugins pluginErrors v).2.
Proof.
  revert plugins pluginErrors w v.
  induction todo as [|cp todo IH]; intros plugins pluginErrors w v Hall; [done|].
  simpl. unfold bind. pose proof (Hall 0 cp eq_refl) as H0. simpl in H0.
  destruct (resolvePlugin pluginsDir downloadsDir osArch param cp w) as [w1 r1] eqn:Hw.
  destruct (resolvePlugin pluginsDir downloadsDir osArch param cp v) as [v1 r2] eqn:Hv.
  simpl in H0. subst r2.
  assert (forall j currPlugin,
     todo !! j = Some currPlugin ->
     (resolvePlugin pluginsDir downloadsDir osArch param currPlugin
        (worldAfter pluginsDir downloadsDir osArch param (take j todo) w1)).2
     = (resolvePlugin pluginsDir downloadsDir osArch param currPlugin
          (worldAfter pluginsDir downloadsDir osArch param (take j todo) v1)).2) as Hall'.
  { intros j cp' Hj. specialize (Hall (S j) cp' Hj). simpl in Hall.
    by rewrite Hw, Hv in Hall. }
  destruct r1; by apply IH.
Qed.

End ResolverFacts.

Lemma Join_cons_concat (h : string) (l : list string) (sep : string) :
  GoStr.Join (h :: l) sep = h +:+ GoStr.concat (map (fun p => sep +:+ p) l).
Proof.
  revert h. induction l as [|p l IH]; intros h.
  - simpl. by rewrite string_app_nil_r.
  - change (GoStr.Join (h :: p :: l) sep) with (h +:+ sep +:+ GoStr.Join (p :: l) sep).
    rewrite IH. simpl. by rewrite string_app_assoc.
Qed.

Section Summary.

Context {env : Env}.

Lemma resolveErrorSummary_text (pluginErrors : gmap locator string) :
  resolveErrorSummary pluginErrors
  = "failed to resolve " +:+ GoStr.fmt_d (size pluginErrors) +:+ " "
      +:+ (if Nat.eqb (size pluginErrors) 1 then "plugin" else "plugins") +:+ ":"
      +:+ GoStr.concat (map (fun k => GoStr.nl +:+ "    " +:+ (pluginErrors !!! k))
                            (sortLocators (mapKeys pluginErrors))).
Proof.
  unfold resolveErrorSummary. cbv zeta. rewrite Join_cons_concat, map_map.
  rewrite !string_app_assoc. by do 5 f_equal.
Qed.

Lemma resolvePlugins_unfold pluginsDir downloadsDir osArch param w :
  resolvePlugins pluginsDir downloadsDir osArch param w
  = let r := sweepPlugins pluginsDir downloadsDir osArch param (Plugins param) ∅ ∅ w in
    (r.1, if Nat.eqb (size r.2.2) 0 then Ok r.2.1
          else Err (resolveErrorSummary r.2.2)).
Proof.
  unfold resolvePlugins, bind.
  destruct (sweepPlugins _ _ _ _ _ _ _ w) as [w' [plugins pluginErrors]]. simpl.
  by destruct (Nat.eqb (size pluginErrors) 0).
Qed.

Lemma stepFails_iff pluginsDir downloadsDir osArch param currPlugin w :
  stepFails pluginsDir downloadsDir osArch param currPlugin w
  <-> exists err,
        (resolvePlugin pluginsDir downloadsDir osArch param currPlugin w).2 = Err err.
Proof.
  unfold stepFails, resolvePlugin, bind.
  destruct (ensureInstalled pluginsDir downloadsDir osArch param currPlugin w)
    as [w1 [e1|]] eqn:H1; simpl.
  { split; [eauto|]. intros _. left. eauto. }
  destruct (verifyChecksum osArch currPlugin _ w1) as [w2 [e2|]] eqn:H2; simpl.
  { split; [eauto|]. intros _. right. left. exists w1, e2. by rewrite H2. }
  destruct (InfoFromPlugin _ w2) as [w3 [info|e3]] eqn:H3; simpl.
  - split.
    + intros [(e & ?)|[(w1' & e & ? & He)|(w1' & w2' & e & ? & Hc & He)]];
        simplify_eq; try done.
      * by rewrite H2 in He.
      * rewrite H2 in Hc. simplify_eq. by rewrite H3 in He.
    + by intros [e ?].
  - split; [eauto|]. intros _. right. right. exists w1, w2, e3.
    split_and!; [done..|]. by rewrite H3.
Qed.

Lemma LoadPluginsTasks_resolve_failed cfg params pluginsDir downloadsDir w err :
  projectParamsFromConfig cfg = Ok params ->
  GodelHomeSpecDir = Ok (pluginsDir, downloadsDir) ->
  (resolvePlugins pluginsDir downloadsDir osarch_Current params w).2 = Err err ->
  (LoadPluginsTasks cfg w).2 = ([], Some err).
Proof.
  intros Hp Hd Hr. unfold LoadPluginsTasks. rewrite Hp, Hd. unfold bind.
  destruct (resolvePlugins pluginsDir downloadsDir osarch_Current params w) as [w' r].
  simpl in Hr. by subst r.
Qed.

End Summary.

(** C4. The loop attempts every declared plugin whatever failed before
    it and records a failure under the plugin's locator; when errors
    were recorded, the result is the summary ["failed to resolve N
    plugin(s):"], with ["plugin"] for one error and ["plugins"]
    otherwise, followed by each recorded error on a line of its own,
    indented by four spaces, in the order of the locators. *)
Theorem errors_accumulated_then_summarised `{env : Env}
    (pluginsDir downloadsDir : string) (osArch : OSArch) (param : projectParams)
    (w w' : World) (plugins : gmap locator Info) (pluginErrors : gmap locator string) :
  rangeOrder_ok env ->
  sweepPlugins pluginsDir downloadsDir osArch param (Plugins param) ∅ ∅ w
    = (w', (plugins, pluginErrors)) ->
  let sortedKeys := sortLocators (mapKeys pluginErrors) in
  let N := size pluginErrors in
  (forall currPlugin,
     currPlugin ∈ Plugins param ->
     EvStat (pluginPath pluginsDir (loc (LocatorWithChecksums currPlugin))) ∈ trace w')
  /\ (forall i currPlugin err,
        Plugins param !! i = Some currPlugin ->
        attempt pluginsDir downloadsDir osArch param w i currPlugin = Err err ->
        is_Some (pluginErrors !! loc (LocatorWithChecksums currPlugin)))
  /\ (forall l err,
        pluginErrors !! l = Some err ->
        exists i currPlugin,
          Plugins param !! i = Some currPlugin
          /\ loc (LocatorWithChecksums currPlugin) = l
          /\ attempt pluginsDir downloadsDir osArch param w i currPlugin = Err err)
  /\ sortedKeys ≡ₚ elements (dom pluginErrors)
  /\ StronglySorted locator_le sortedKeys
  /\ (N <> 0 ->
      resolvePlugins pluginsDir downloadsDir osArch param w
      = (w', Err ("failed to resolve " +:+ GoStr.fmt_d N +:+ " "
                  +:+ (if decide (N = 1) then "plugin" else "plugins") +:+ ":"
                  +:+ GoStr.concat
                        (map (fun k => GoStr.nl +:+ "    " +:+ (pluginErrors !!! k))
                             sortedKeys))))
  /\ (N = 0 ->
      resolvePlugins pluginsDir downloadsDir osArch param w = (w', Ok plugins)).
Proof.
  intros Hok Hsweep sortedKeys N.
  assert (w' = worldAfter pluginsDir downloadsDir osArch param (Plugins param) w) as Hw.
  { by rewrite <-(sweepPlugins_world _ _ _ _ _ ∅ ∅), Hsweep. }
  split_and!.
  - intros cp Hcp. rewrite Hw. by apply worldAfter_attempts_all.
  - intros i cp err Hi Herr.
    pose proof (sweepPlugins_failure_recorded pluginsDir downloadsDir osArch param
                  (Plugins param) ∅ ∅ w i cp err Hi Herr) as H.
    by rewrite Hsweep in H.
  - intros l err Hl.
    pose proof (sweepPlugins_error_origin pluginsDir downloadsDir osArch param
                  (Plugins param) ∅ ∅ w l err) as H.
    rewrite Hsweep in H. destruct (H Hl) as [?|?]; [done|eauto].
  - unfold sortedKeys. rewrite sortLocators_Permutation. by apply mapKeys_Permutation.
  - apply sortLocators_sorted.
  - intros HN. rewrite resolvePlugins_unfold, Hsweep. cbv zeta. simpl.
    fold N. destruct (Nat.eqb_spec N 0) as [?|_]; [done|].
    rewrite resolveErrorSummary_text. fold N. fold sortedKeys.
    by destruct (Nat.eqb_spec N 1), (decide (N = 1)).
  - intros HN. rewrite resolvePlugins_unfold, Hsweep. cbv zeta. simpl.
    fold N. by rewrite HN.
Qed.

(** C9. When the iteration of some declared plugin fails in any of its
    steps, the fetch or the unpack, the checksum, the info probe,
    [LoadPluginsTasks] returns an error and no task, whatever the other
    plugins resolved to. *)
Theorem failed_step_fails_load `{env : Env}
    (cfg : PluginsConfig) (params : projectParams) (pluginsDir downloadsDir : string)
    (w : World) (i : nat) (currPlugin : pluginParam) :
  projectParamsFromConfig cfg = Ok params ->
  GodelHomeSpecDir = Ok (pluginsDir, downloadsDir) ->
  Plugins params !! i = Some currPlugin ->
  stepFails pluginsDir downloadsDir osarch_Current params currPlugin
    (worldAfter pluginsDir downloadsDir osarch_Current params (take i (Plugins params)) w) ->
  exists err,
    (LoadPluginsTasks cfg w).2 = ([], Some err)
    /\ (resolvePlugins pluginsDir downloadsDir osarch_Current params w).2 = Err err.
Proof.
  intros Hp Hd Hi Hfail. apply stepFails_iff in Hfail as [e He].
  pose proof (sweepPlugins_failure_recorded pluginsDir downloadsDir osarch_Current params
                (Plugins params) ∅ ∅ w i currPlugin e Hi He) as [e' He'].
  assert (exists err,
            (resolvePlugins pluginsDir downloadsDir osarch_Current params w).2 = Err err)
    as [err Herr].
  { rewrite resolvePlugins_unfold. cbv zeta. simpl.
    destruct (Nat.eqb_spec (size (sweepPlugins pluginsDir downloadsDir osarch_Current params
                                    (Plugins params) ∅ ∅ w).2.2) 0) as [E|_]; [|eauto].
    apply map_size_empty_iff in E. by rewrite E in He'. }
  exists err. split; [|done]. by eapply LoadPluginsTasks_resolve_failed.
Qed.

Section Installed.

Context {env : Env}.

Variables (pluginsDir downloadsDir : string) (osArch : OSArch) (param : projectParams).

(** Past a successful [ensureInstalled] the install path holds a file. *)
Lemma ensureInstalled_installs currPlugin w w1 :
  ensureInstalled pluginsDir downloadsDir osArch param currPlugin w = (w1, None) ->
  is_Some (files w1 !! pluginPath pluginsDir (loc (LocatorWithChecksums currPlugin))).
Proof.
  io_unfold. intros H. io_cases; rewrite ?lookup_insert_eq; eauto.
  match goal with H : bool_decide _ = false |- _ => apply bool_decide_eq_false in H end.
  by apply not_eq_None_Some.
Qed.

Lemma resolvePlugin_unfold currPlugin w :
  resolvePlugin pluginsDir downloadsDir osArch param currPlugin w
  = let r := ensureInstalled pluginsDir downloadsDir osArch param currPlugin w in
    let dst := path_Join pluginsDir (pluginFileName (loc (LocatorWithChecksums currPlugin))) in
    match r.2 with
    | Some err => (r.1, Err err)
    | None =>
        bind (verifyChecksum osArch currPlugin dst)
          (fun checked =>
             match checked with
             | Some err => ret (Err err)
             | None =>
                 bind (InfoFromPlugin dst)
                   (fun i =>
                      match i with
                      | Err err =>
                          ret (Err (GoStr.Wrapf err
                            ("failed to get plugin info for plugin "
                             +:+ locator_String (loc (LocatorWithChecksums currPlugin)))))
                      | Ok info => ret (Ok info)
                      end)
             end) r.1
    end.
Proof.
  unfold resolvePlugin. unfold bind at 1.
  by destruct (ensureInstalled pluginsDir downloadsDir osArch param currPlugin w)
    as [w1 [e|]].
Qed.

(** The checksum and the info probe read the installed file and write
    nothing; what they yield is decided by its bytes. *)
Lemma resolvePlugin_after_install currPlugin w w1 v c :
  ensureInstalled pluginsDir downloadsDir osArch param currPlugin w = (w1, None) ->
  files w1 !! pluginPath pluginsDir (loc (LocatorWithChecksums currPlugin)) = Some c ->
  files v !! pluginPath pluginsDir (loc (LocatorWithChecksums currPlugin)) = Some c ->
  (resolvePlugin pluginsDir downloadsDir osArch param currPlugin w).2
  = (resolvePlugin pluginsDir downloadsDir osArch param currPlugin v).2
  /\ files (resolvePlugin pluginsDir downloadsDir osArch param currPlugin w).1 = files w1.
Proof.
  intros H1 Hc Hv. rewrite !resolvePlugin_unfold.
  rewrite H1, (ensureInstalled_present _ _ _ _ _ v c Hv). cbv zeta. cbn [fst snd].
  unfold pluginPath in *. io_unfold.
  destruct (Checksums (LocatorWithChecksums currPlugin) !! osArch) as [want|];
    cbn [fst snd files trace]; rewrite ?Hc, ?Hv; cbn [fst snd files trace].
  - destruct (bool_decide (sha256hex c <> want)); cbn [fst snd files trace];
      rewrite ?Hc, ?Hv; [done|].
    by destruct (infoOutput c).
  - by destruct (infoOutput c).
Qed.

Lemma resolvePlugin_present currPlugin w c :
  files w !! pluginPath pluginsDir (loc (LocatorWithChecksums currPlugin)) = Some c ->
  files (resolvePlugin pluginsDir downloadsDir osArch param currPlugin w).1 = files w
  /\ forall v,
       files v !! pluginPath pluginsDir (loc (LocatorWithChecksums currPlugin)) = Some c ->
       (resolvePlugin pluginsDir downloadsDir osArch param currPlugin v).2
       = (resolvePlugin pluginsDir downloadsDir osArch param currPlugin w).2.
Proof.
  intros Hc.
  pose proof (ensureInstalled_present pluginsDir downloadsDir osArch param currPlugin w c Hc)
    as H1.
  split.
  - by destruct (resolvePlugin_after_install currPlugin w _ w c H1 Hc Hc) as [_ ->].
  - intros v Hv. symmetry.
    by destruct (resolvePlugin_after_install currPlugin w _ v c H1 Hc Hv) as [-> _].
Qed.

(** The I/O of an iteration that finds the plugin installed and
    resolves it. *)
Lemma resolvePlugin_present_trace currPlugin w c info :
  files w !! pluginPath pluginsDir (loc (LocatorWithChecksums currPlugin)) = Some c ->
  (resolvePlugin pluginsDir downloadsDir osArch param currPlugin w).2 = Ok info ->
  (resolvePlugin pluginsDir downloadsDir osArch param currPlugin w).1
  = {| files := files w;
       trace := trace w ++ installedTrace pluginsDir osArch currPlugin |}.
Proof.
  intros Hc. rewrite !resolvePlugin_unfold.
  rewrite (ensureInstalled_present _ _ _ _ _ w c Hc). cbv zeta. cbn [fst snd].
  unfold installedTrace, pluginPath in *. io_unfold.
  destruct (Checksums (LocatorWithChecksums currPlugin) !! osArch) as [want|] eqn:Hsum;
    cbn [fst snd files trace]; rewrite ?Hc; cbn [fst snd files trace].
  - rewrite decide_True by eauto.
    destruct (bool_decide (sha256hex c <> want)); cbn [fst snd files trace];
      rewrite ?Hc; [done|].
    destruct (infoOutput c); [|done]. intros _. cbn [fst]. by rewrite <-!app_assoc.
  - rewrite decide_False by (by intros [??]).
    destruct (infoOutput c); [|done]. intros _. cbn [fst]. by rewrite <-!app_assoc.
Qed.

(** A resolved plugin is installed, and its information is that of the
    installed bytes. *)
Lemma resolvePlugin_Ok_installed currPlugin w info :
  (resolvePlugin pluginsDir downloadsDir osArch param currPlugin w).2 = Ok info ->
  exists c,
    files (resolvePlugin pluginsDir downloadsDir osArch param currPlugin w).1
      !! pluginPath pluginsDir (loc (LocatorWithChecksums currPlugin)) = Some c
    /\ forall v,
         files v !! pluginPath pluginsDir (loc (LocatorWithChecksums currPlugin)) = Some c ->
         (resolvePlugin pluginsDir downloadsDir osArch param currPlugin v).2 = Ok info.
Proof.
  intros Hok.
  destruct (ensureInstalled pluginsDir downloadsDir osArch param currPlugin w)
    as [w1 [e|]] eqn:H1.
  { rewrite resolvePlugin_unfold, H1 in Hok. done. }
  destruct (ensureInstalled_installs currPlugin w w1 H1) as [c Hc].
  exists c. split.
  - by destruct (resolvePlugin_after_install currPlugin w w1 w1 c H1 Hc Hc) as [_ ->].
  - intros v Hv.
    destruct (resolvePlugin_after_install currPlugin w w1 v c H1 Hc Hv) as [<- _]. done.
Qed.

End Installed.

Section Rerun.

Context {env : Env}.

Variables (pluginsDir downloadsDir : string) (osArch : OSArch) (param : projectParams).

Hypothesis fetch_frame : fetch_writes_archive_only env.

(** An iteration leaves every file but its own archive as it was. *)
Lemma resolvePlugin_frame currPlugin w x c :
  files w !! x = Some c ->
  x <> path_Join downloadsDir
         (pluginFileName (loc (LocatorWithChecksums currPlugin)) +:+ ".tgz") ->
  files (resolvePlugin pluginsDir downloadsDir osArch param currPlugin w).1 !! x = Some c.
Proof.
  intros Hx Hne.
  destruct (files w !! pluginPath pluginsDir (loc (LocatorWithChecksums currPlugin)))
    as [c'|] eqn:Hdst.
  { destruct (resolvePlugin_present pluginsDir downloadsDir osArch param currPlugin w c' Hdst)
      as [-> _]. done. }
  assert (x <> path_Join pluginsDir (pluginFileName (loc (LocatorWithChecksums currPlugin))))
    as Hxd by (intros ->; unfold pluginPath in Hdst; congruence).
  pose proof (fetch_frame currPlugin (DefaultResolvers param) osArch _ (files w) x Hne) as Hfr.
  unfold pluginPath in Hdst. io_unfold. rewrite Hdst.
  rewrite bool_decide_eq_true_2 by done. cbn [fst snd files trace].
  destruct (resolvePluginTGZ _ _ _ _ (files w)) as [fs1 e]. simpl in Hfr.
  cbn [fst snd files trace].
  io_cases; rewrite ?lookup_insert_ne by done; congruence.
Qed.

Lemma worldAfter_frame todo w x c :
  files w !! x = Some c ->
  (forall q, q ∈ todo ->
     x <> path_Join downloadsDir (pluginFileName (loc (LocatorWithChecksums q)) +:+ ".tgz")) ->
  files (worldAfter pluginsDir downloadsDir osArch param todo w) !! x = Some c.
Proof.
  revert w. induction todo as [|cp todo IH]; intros w Hx Hne; [done|].
  simpl. apply IH.
  - apply resolvePlugin_frame; [done|]. apply Hne. by left.
  - intros q Hq. apply Hne. by right.
Qed.

(** A run in which the plugins of [todo] are installed and resolve:
    the files stay as they are and the I/O is that of [installedTrace]. *)
Lemma worldAfter_installed todo w :
  (forall q, q ∈ todo ->
     exists c info,
       files w !! pluginPath pluginsDir (loc (LocatorWithChecksums q)) = Some c
       /\ forall v,
            files v !! pluginPath pluginsDir (loc (LocatorWithChecksums q)) = Some c ->
            (resolvePlugin pluginsDir downloadsDir osArch param q v).2 = Ok info) ->
  worldAfter pluginsDir downloadsDir osArch param todo w
  = {| files := files w;
       trace := trace w ++ flat_map (installedTrace pluginsDir osArch) todo |}.
Proof.
  revert w. induction todo as [|cp todo IH]; intros w Hall.
  - simpl. rewrite app_nil_r. by destruct w.
  - destruct (Hall cp) as (c & info & Hc & Hres); [by left|].
    simpl.
    rewrite (resolvePlugin_present_trace pluginsDir downloadsDir osArch param cp w c info Hc
               (Hres w Hc)).
    rewrite IH; cbn [files trace]; [by rewrite <-app_assoc|].
    intros q Hq. apply Hall. by right.
Qed.


(** Resolving again after a run that resolved every plugin. *)
Lemma resolvePlugins_again w0 w1 plugins :
  archives_apart pluginsDir downloadsDir param ->
  resolvePlugins pluginsDir downloadsDir osArch param w0 = (w1, Ok plugins) ->
  resolvePlugins pluginsDir downloadsDir osArch param w1
  = ({| files := files w1;
        trace := trace w1 ++ flat_map (installedTrace pluginsDir osArch) (Plugins param) |},
     Ok plugins).
Proof.
  intros Hapart Hrun. rewrite resolvePlugins_unfold in Hrun. cbv zeta in Hrun.
  destruct (sweepPlugins pluginsDir downloadsDir osArch param (Plugins param) ∅ ∅ w0)
    as [w1' [plugins' pluginErrors]] eqn:Hsweep.
  cbn [fst snd] in Hrun.
  destruct (Nat.eqb_spec (size pluginErrors) 0) as [Hsize|]; [|done].
  apply map_size_empty_iff in Hsize. simplify_eq.
  assert (w1 = worldAfter pluginsDir downloadsDir osArch param (Plugins param) w0) as Hw1.
  { by rewrite <-(sweepPlugins_world _ _ _ _ _ ∅ ∅), Hsweep. }
  assert (forall j q,
            Plugins param !! j = Some q ->
            exists c info,
              files w1 !! pluginPath pluginsDir (loc (LocatorWithChecksums q)) = Some c
              /\ attempt pluginsDir downloadsDir osArch param w0 j q = Ok info
              /\ forall v,
                   files v !! pluginPath pluginsDir (loc (LocatorWithChecksums q)) = Some c ->
                   (resolvePlugin pluginsDir downloadsDir osArch param q v).2 = Ok info)
    as Hkey.
  { intros j q Hj. unfold attempt.
    destruct (resolvePlugin pluginsDir downloadsDir osArch param q
                (worldAfter pluginsDir downloadsDir osArch param (take j (Plugins param)) w0)).2
      as [info|e] eqn:Hres.
    2:{ pose proof (sweepPlugins_failure_recorded pluginsDir downloadsDir osArch param
                      (Plugins param) ∅ ∅ w0 j q e Hj Hres) as [e' He'].
        rewrite Hsweep in He'. done. }
    destruct (resolvePlugin_Ok_installed pluginsDir downloadsDir osArch param q _ info Hres)
      as (c & Hc & Hv).
    exists c, info. split_and!; [|done..].
    rewrite Hw1. rewrite <-(take_drop_middle (Plugins param) j q Hj).
    rewrite worldAfter_app. simpl. apply worldAfter_frame; [done|].
    intros q' Hq'. apply Hapart.
    - by eapply list_elem_of_lookup_2.
    - by apply (subseteq_drop (S j) (Plugins param)). }
  assert (forall todo, (forall q, q ∈ todo -> q ∈ Plugins param) ->
            worldAfter pluginsDir downloadsDir osArch param todo w1
            = {| files := files w1;
                 trace := trace w1 ++ flat_map (installedTrace pluginsDir osArch) todo |})
    as Hsteady.
  { intros todo Hsub. apply worldAfter_installed. intros q Hq.
    apply Hsub, list_elem_of_lookup in Hq as [j Hj].
    destruct (Hkey j q Hj) as (c & info & ? & ? & ?). eauto. }
  rewrite resolvePlugins_unfold. cbv zeta.
  rewrite sweepPlugins_world, Hsteady by done.
  rewrite (sweepPlugins_maps_ext pluginsDir downloadsDir osArch param (Plugins param) ∅ ∅ w1 w0).
  { by rewrite Hsweep. }
  intros j q Hj. destruct (Hkey j q Hj) as (c & info & Hc & Hatt & Hv).
  unfold attempt in Hatt. rewrite Hatt. apply Hv.
  rewrite Hsteady; [done|]. intros q' Hq'. by apply (subseteq_take j (Plugins param)).
Qed.

End Rerun.

Lemma installedTrace_no_fetch pluginsDir osArch currPlugin :
  Forall (fun e => isFetchOrUnpack e = false) (installedTrace pluginsDir osArch currPlugin).
Proof.
  unfold installedTrace. case_decide; repeat constructor.
Qed.

Lemma Forall_flat_map_all {A B} (P : B -> Prop) (f : A -> list B) (l : list A) :
  (forall x, Forall P (f x)) -> Forall P (flat_map f l).
Proof.
  intros Hf. induction l as [|x l IH]; [constructor|].
  change (flat_map f (x :: l)) with (f x ++ flat_map f l)%list.
  apply Forall_app. by split.
Qed.

(** C1, amended. After a load that succeeded, with a fetcher that writes
    nothing but the archive it was asked for and archives kept apart
    from the installed plugins, loading again with the same
    configuration returns the same task list and leaves the files
    as they are; for each declared plugin in turn it performs the
    existence check, the checksum of the installed file when one is
    configured for the platform, and the info probe: no fetch, no
    unpack, but the checksum is computed again. *)
Theorem second_load_repeats_only_checks `{env : Env}
    (cfg : PluginsConfig) (params : projectParams) (pluginsDir downloadsDir : string)
    (w0 w1 : World) (tasks : list Task) :
  fetch_writes_archive_only env ->
  projectParamsFromConfig cfg = Ok params ->
  GodelHomeSpecDir = Ok (pluginsDir, downloadsDir) ->
  archives_apart pluginsDir downloadsDir params ->
  LoadPluginsTasks cfg w0 = (w1, (tasks, None)) ->
  let evs := flat_map (installedTrace pluginsDir osarch_Current) (Plugins params) in
  LoadPluginsTasks cfg w1
  = ({| files := files w1; trace := trace w1 ++ evs |}, (tasks, None))
  /\ Forall (fun e => isFetchOrUnpack e = false) evs
  /\ (forall currPlugin,
        currPlugin ∈ Plugins params ->
        is_Some (Checksums (LocatorWithChecksums currPlugin) !! osarch_Current) ->
        EvChecksum (pluginPath pluginsDir (loc (LocatorWithChecksums currPlugin))) ∈ evs).
Proof.
  intros Hframe Hp Hd Hapart Hload evs.
  destruct (LoadPluginsTasks_success_inv cfg w0 w1 tasks Hload)
    as (params' & pluginsDir' & downloadsDir' & plugins & Hp' & Hd' & Hr & Hv & ->).
  rewrite Hp in Hp'. rewrite Hd in Hd'. simplify_eq.
  split_and!.
  - rewrite (LoadPluginsTasks_after_resolve cfg params' pluginsDir' downloadsDir' w1
               {| files := files w1; trace := trace w1 ++ evs |} plugins Hp Hd).
    + by rewrite Hv.
    + by eapply resolvePlugins_again.
  - apply Forall_flat_map_all. intros q. apply installedTrace_no_fetch.
  - intros q Hq Hsum. unfold evs. apply list_elem_of_In, in_flat_map.
    exists q. split; [by apply list_elem_of_In|]. apply list_elem_of_In.
    unfold installedTrace, pluginPath. rewrite decide_True by done.
    set_solver.
Qed.

(** C2, amended. For a plugin with a checksum configured for the
    platform, the digest of the installed file is compared with the
    configured one for equality of strings, letter case included: any
    difference fails the plugin's iteration with an error that names
    the file, the wanted and the computed digest, and the file stays
    where it is; equal strings pass the check. *)
Theorem checksum_compared_exactly `{env : Env}
    (pluginsDir downloadsDir : string) (osArch : OSArch) (param : projectParams)
    (currPlugin : pluginParam) (w w1 : World) (wantChecksum : string) :
  Checksums (LocatorWithChecksums currPlugin) !! osArch = Some wantChecksum ->
  ensureInstalled pluginsDir downloadsDir osArch param currPlugin w = (w1, None) ->
  let dst := pluginPath pluginsDir (loc (LocatorWithChecksums currPlugin)) in
  exists c,
    files w1 !! dst = Some c
    /\ (sha256hex c <> wantChecksum ->
        resolvePlugin pluginsDir downloadsDir osArch param currPlugin w
        = ({| files := files w1; trace := trace w1 ++ [EvChecksum dst] |},
           Err ("failed to verify checksum for " +:+ dst +:+ ": want " +:+ wantChecksum
                +:+ ", got " +:+ sha256hex c)))
    /\ (sha256hex c = wantChecksum ->
        verifyChecksum osArch currPlugin dst w1
        = ({| files := files w1; trace := trace w1 ++ [EvChecksum dst] |}, None)).
Proof.
  intros Hsum H1 dst.
  destruct (ensureInstalled_installs pluginsDir downloadsDir osArch param currPlugin w w1 H1)
    as [c Hc].
  exists c. split_and!; [done|..].
  - intros Hne. rewrite resolvePlugin_unfold, H1. cbv zeta. cbn [fst snd].
    unfold dst, pluginPath in *. io_unfold. rewrite Hsum. cbn [fst snd files trace].
    rewrite Hc. cbn [fst snd files trace].
    by rewrite bool_decide_eq_true_2 by done.
  - intros Heq. unfold dst, pluginPath in *. io_unfold. rewrite Hsum.
    cbn [fst snd files trace]. rewrite Hc. cbn [fst snd files trace].
    by rewrite bool_decide_eq_false_2 by (intros ?; done).
Qed.

(** C3, amended. When the archive was fetched and the install file
    created, and the extraction then fails (the archive cannot be
    opened, the copy stops partway, or the close fails), the install
    path is left holding the bytes written so far, none if the archive
    could not be opened: nothing was written to a temporary sibling and
    nothing is deleted. The failure is the plugin's error, and the next
    existence check takes the plugin for installed. *)
Theorem failed_extract_leaves_install_file `{env : Env}
    (pluginsDir downloadsDir : string) (osArch : OSArch) (param : projectParams)
    (currPlugin : pluginParam) (w w' : World) (fs1 : gmap string string) (e : string) :
  let dst := pluginPath pluginsDir (loc (LocatorWithChecksums currPlugin)) in
  let tgz := path_Join downloadsDir
               (pluginFileName (loc (LocatorWithChecksums currPlugin)) +:+ ".tgz") in
  files w !! dst = None ->
  resolvePluginTGZ currPlugin (DefaultResolvers param) osArch tgz (files w) = (fs1, None) ->
  openFile_fault fs1 dst = None ->
  ensureInstalled pluginsDir downloadsDir osArch param currPlugin w = (w', Some e) ->
  let written :=
    match <[dst := ""]> fs1 !! tgz with
    | Some archive => (copyPluginTGZContent archive).1
    | None => ""
    end in
  files w' = <[dst := written]> fs1
  /\ files w' !! dst = Some written
  /\ (exists err,
        e = GoStr.Wrapf err "failed to extract plugin from archive into destination")
  /\ resolvePlugin pluginsDir downloadsDir osArch param currPlugin w = (w', Err e)
  /\ ensureInstalled pluginsDir downloadsDir osArch param currPlugin w'
     = ({| files := files w'; trace := trace w' ++ [EvStat dst] |}, None).
Proof.
  intros dst tgz Habsent Hfetch Hopen Hfail written.
  assert (files w' = <[dst := written]> fs1
          /\ exists err,
               e = GoStr.Wrapf err "failed to extract plugin from archive into destination")
    as [Hfiles Herr].
  { revert Hfail. unfold written, dst, tgz, pluginPath in *. io_unfold.
    rewrite Habsent, bool_decide_eq_true_2 by done. cbn [fst snd files trace].
    rewrite Hfetch. cbn [fst snd files trace]. rewrite Hopen. cbn [fst snd files trace].
    destruct (<[_ := ""]> fs1 !! _) as [archive|]; cbn [fst snd files trace].
    - destruct (copyPluginTGZContent archive) as [bytes cerr]. cbn [fst snd files trace].
      destruct (close_fault _), cerr; cbn [fst snd files trace]; intros [= <- <-];
        cbn [files]; rewrite ?insert_insert_eq; eauto.
    - destruct (close_fault _); cbn [fst snd files trace]; intros [= <- <-];
        cbn [files]; eauto. }
  assert (files w' !! dst = Some written) as Hdst
    by (rewrite Hfiles; apply lookup_insert_eq).
  split_and!; [done..| |].
  - by rewrite resolvePlugin_unfold, Hfail.
  - by apply (ensureInstalled_present _ _ _ _ _ _ written).
Qed.

(** ** The task binder *)

(** C8. In verify mode the user's tail arguments do not reach the
    plugin: with apply=true nothing follows the task's command, with
    apply=false exactly the task's [applyFalseArgs] tokens follow it. *)
Theorem verify_mode_passes_no_user_tail
    (g : GlobalParams) (t : Task) (tail tail' : list string) (apply : bool) :
  taskArgv g t (VerifyMode true tail)
  = (TaskExecPath t :: globalFlagArgs g t ++ [TaskCommand (TaskDecl t)])%list
  /\ taskArgv g t (VerifyMode false tail)
     = (TaskExecPath t :: globalFlagArgs g t ++ [TaskCommand (TaskDecl t)]
          ++ ApplyFalseArgs (TaskVerifyOptions (TaskDecl t)))%list
  /\ taskArgv g t (VerifyMode apply tail) = taskArgv g t (VerifyMode apply tail').
Proof.
  split_and!.
  - unfold taskArgv, trailingArgs. by rewrite app_nil_r.
  - done.
  - by destruct apply.
Qed.

(** The outputs [TestPlugins] expects. *)
Example TestPlugins_echo_task :
  Sample.echoed {| ProjectDir := "/p"; Debug := false |} Sample.echoInfo
    (Direct ["foo"; "--bar"; "baz"])
  = ["--project-dir /p --godel-config /p/godel/config/godel.yml --config /p/godel/config/echo.yml echo foo --bar baz"].
Proof. reflexivity. Qed.

Example TestPlugins_verify :
  Sample.echoed {| ProjectDir := "/p"; Debug := false |} Sample.echoInfo
    (VerifyMode true ["--skip-test"])
  = ["--project-dir /p --godel-config /p/godel/config/godel.yml --config /p/godel/config/echo.yml echo"].
Proof. reflexivity. Qed.

Example TestPlugins_verify_apply_false :
  Sample.echoed {| ProjectDir := "/p"; Debug := false |} Sample.echoInfo
    (VerifyMode false ["--skip-test"; "--apply=false"])
  = ["--project-dir /p --godel-config /p/godel/config/godel.yml --config /p/godel/config/echo.yml echo --verify"].
Proof. reflexivity. Qed.

(** ** The theorems at work on the sample environment *)

Lemma triple_eta {A B C} (x : A * (B * C)) : x = (x.1, (x.2.1, x.2.2)).
Proof. by destruct x as [? [? ?]]. Qed.

Lemma sample_rangeOrder_ok : rangeOrder_ok (Sample.sampleEnv id).
Proof. intros l. reflexivity. Qed.


Lemma sample_fetch_frame order : fetch_writes_archive_only (Sample.sampleEnv order).
Proof.
  intros cp rs oa dst fs p Hne. simpl. unfold Sample.fetchFromRepo.
  destruct (String.eqb _ "gone"); simpl; [done|]. by rewrite lookup_insert_ne.
Qed.

Lemma sample_archives_apart param : archives_apart "plugins" "downloads" param.
Proof. intros p q _ _. unfold pluginPath, path_Join. simpl. discriminate. Qed.

(** C1, amended, on a plugin with a checksum and one without: the
    second load repeats the existence checks, the checksum and the
    info probes, and returns the same tasks. *)
Lemma second_load_witness :
  let ps := [Sample.withChecksum Sample.echoLoc
               "5891b5b522d5df086d0ff0b110fbd9d21bb4fc7163af34d08286a2e846f6be03";
             Sample.plain Sample.aLoc] in
  let first := Sample.load id ps Sample.emptyWorld in
  let second := Sample.load id ps first.1 in
  map Name first.2.1 = ["lint"; "echo-task"]
  /\ second.2 = first.2
  /\ files second.1 = files first.1
  /\ trace second.1
     = (trace first.1
        ++ [EvStat "plugins/com.palantir-echo-1.0.0";
            EvChecksum "plugins/com.palantir-echo-1.0.0";
            EvInfo "plugins/com.palantir-echo-1.0.0";
            EvStat "plugins/com.palantir-a-1.0.0";
            EvInfo "plugins/com.palantir-a-1.0.0"])%list.
Proof.
  intros ps first second.
  assert (first = (first.1, (first.2.1, None))) as Hfirst by (vm_compute; reflexivity).
  destruct (second_load_repeats_only_checks (env := Sample.sampleEnv id)
              ps (Sample.params ps) "plugins" "downloads" Sample.emptyWorld
              first.1 first.2.1 (sample_fetch_frame id) eq_refl eq_refl
              (sample_archives_apart _) Hfirst) as [Hsecond _].
  subst second.
  change (Sample.load id ps first.1)
    with (@LoadPluginsTasks (Sample.sampleEnv id) ps first.1).
  rewrite Hsecond. cbn [fst snd files trace].
  split_and!; [vm_compute; reflexivity| |reflexivity|reflexivity].
  by rewrite Hfirst at 2.
Defined.

(** C1 as stated fails: a plugin with a checksum configured for the
    platform is resolved twice in a row, and the second resolution
    computes the checksum of the installed file again. *)
Lemma second_load_recomputes_checksum :
  let ps := [Sample.withChecksum Sample.echoLoc
               "5891b5b522d5df086d0ff0b110fbd9d21bb4fc7163af34d08286a2e846f6be03"] in
  let first := Sample.load id ps Sample.emptyWorld in
  let second := Sample.load id ps {| files := files first.1; trace := [] |} in
  map Name first.2.1 = ["echo-task"]
  /\ first.2.2 = None
  /\ second.2 = first.2
  /\ trace second.1
     = [EvStat "plugins/com.palantir-echo-1.0.0";
        EvChecksum "plugins/com.palantir-echo-1.0.0";
        EvInfo "plugins/com.palantir-echo-1.0.0"]
  /\ Exists (fun e => isChecksum e = true) (trace second.1).
Proof.
  vm_compute. split_and!; try reflexivity.
  apply Exists_cons_tl, Exists_cons_hd. reflexivity.
Qed.

(** C2, amended, on an installed empty file whose configured checksum
    is its digest: the check passes. *)
Lemma checksum_compared_witness :
  let sum := "e3b0c44298fc1c149afbf4c8996fb92427ae41e4649b934ca495991b7852b855" in
  let cp := Sample.withChecksum Sample.echoLoc sum in
  let w := {| files := {[ "plugins/com.palantir-echo-1.0.0" := "" ]}; trace := [] |} in
  exists c,
    files w !! "plugins/com.palantir-echo-1.0.0" = Some c
    /\ @sha256hex (Sample.sampleEnv id) c = sum
    /\ (@verifyChecksum (Sample.sampleEnv id) Sample.hostOSArch cp
          "plugins/com.palantir-echo-1.0.0"
          {| files := files w; trace := [EvStat "plugins/com.palantir-echo-1.0.0"] |}).2
       = None.
Proof.
  intros sum cp w.
  destruct (checksum_compared_exactly (env := Sample.sampleEnv id)
              "plugins" "downloads" Sample.hostOSArch (Sample.params [cp]) cp w
              {| files := files w; trace := [EvStat "plugins/com.palantir-echo-1.0.0"] |}
              sum ltac:(vm_compute; reflexivity) ltac:(vm_compute; reflexivity))
    as (c & Hc & _ & Hpass).
  assert (c = "") as -> by (vm_compute in Hc; congruence).
  exists "". split_and!; [vm_compute; reflexivity..|].
  change (pluginPath "plugins" (loc (LocatorWithChecksums cp)))
    with "plugins/com.palantir-echo-1.0.0" in Hpass.
  by rewrite Hpass.
Defined.

(** C2 as stated fails: the configured checksum is the digest of the
    installed file in upper case, equal to it when case is ignored,
    and the plugin fails with a checksum error; the file stays. *)
Lemma checksum_case_matters :
  let want := "E3B0C44298FC1C149AFBF4C8996FB92427AE41E4649B934CA495991B7852B855" in
  let cp := Sample.withChecksum Sample.echoLoc want in
  let w := {| files := {[ "plugins/com.palantir-echo-1.0.0" := "" ]}; trace := [] |} in
  let r := @resolvePlugin (Sample.sampleEnv id) "plugins" "downloads" Sample.hostOSArch
             (Sample.params [cp]) cp w in
  GoStr.EqualFold (@sha256hex (Sample.sampleEnv id) "") want = true
  /\ r.2 = Err ("failed to verify checksum for plugins/com.palantir-echo-1.0.0: "
                +:+ "want E3B0C44298FC1C149AFBF4C8996FB92427AE41E4649B934CA495991B7852B855, "
                +:+ "got e3b0c44298fc1c149afbf4c8996fb92427ae41e4649b934ca495991b7852b855")
  /\ files r.1 !! "plugins/com.palantir-echo-1.0.0" = Some "".
Proof. vm_compute. by split_and!. Qed.

(** C3, amended, on an archive that is cut short. *)
Lemma failed_extract_witness :
  let cp := Sample.plain Sample.brokenLoc in
  let r := @ensureInstalled (Sample.sampleEnv id) "plugins" "downloads" Sample.hostOSArch
             (Sample.params [cp]) cp Sample.emptyWorld in
  r.2 = Some "failed to extract plugin from archive into destination: unexpected EOF"
  /\ files r.1 !! "plugins/com.palantir-broken-1.0.0" = Some "bro"
  /\ (@ensureInstalled (Sample.sampleEnv id) "plugins" "downloads" Sample.hostOSArch
        (Sample.params [cp]) cp r.1).2 = None.
Proof.
  intros cp r.
  destruct (failed_extract_leaves_install_file (env := Sample.sampleEnv id)
              "plugins" "downloads" Sample.hostOSArch (Sample.params [cp]) cp
              Sample.emptyWorld r.1
              {[ "downloads/com.palantir-broken-1.0.0.tgz" := "tgz:broken" ]}
              "failed to extract plugin from archive into destination: unexpected EOF"
              ltac:(vm_compute; reflexivity) ltac:(vm_compute; reflexivity)
              ltac:(vm_compute; reflexivity) ltac:(vm_compute; reflexivity))
    as (_ & Hdst & _ & _ & Hnext).
  split_and!.
  - vm_compute; reflexivity.
  - etrans; [exact Hdst|]. vm_compute; reflexivity.
  - exact (f_equal snd Hnext).
Defined.

(** C3 as stated fails: the unpack fails partway and the three bytes
    written so far stay at the install path; the next resolution
    takes them for the installed plugin and fails at the info probe. *)
Lemma failed_extract_leaves_partial_file :
  let r := Sample.resolve id [Sample.plain Sample.brokenLoc] Sample.emptyWorld in
  r.2 = Err ("failed to resolve 1 plugin:" +:+ GoStr.nl
             +:+ "    failed to extract plugin from archive into destination: unexpected EOF")
  /\ files r.1 !! "plugins/com.palantir-broken-1.0.0" = Some "bro"
  /\ (Sample.resolve id [Sample.plain Sample.brokenLoc]
        {| files := files r.1; trace := [] |}).2
     = Err ("failed to resolve 1 plugin:" +:+ GoStr.nl
            +:+ "    failed to get plugin info for plugin com.palantir:broken:1.0.0: exit status 1").
Proof. vm_compute. by split_and!. Qed.

(** C4 on four plugins of which the second and the third fail: the
    fourth is still attempted, and the two errors are listed in the
    order of their locators. *)
Lemma errors_accumulated_witness :
  let ps := [Sample.plain Sample.echoLoc; Sample.plain Sample.goneLoc;
             Sample.plain Sample.brokenLoc; Sample.plain Sample.aLoc] in
  let r := Sample.resolve id ps Sample.emptyWorld in
  r.2 = Err ("failed to resolve 2 plugins:" +:+ GoStr.nl
             +:+ "    failed to extract plugin from archive into destination: unexpected EOF"
             +:+ GoStr.nl
             +:+ "    failed to resolve plugin com.palantir:gone:1.0.0")
  /\ EvStat "plugins/com.palantir-a-1.0.0" ∈ trace r.1.
Proof.
  intros ps r.
  pose (s := @sweepPlugins (Sample.sampleEnv id) "plugins" "downloads" Sample.hostOSArch
               (Sample.params ps) ps ∅ ∅ Sample.emptyWorld).
  assert (s = (s.1, (s.2.1, s.2.2))) as Hs by apply triple_eta.
  destruct (errors_accumulated_then_summarised (env := Sample.sampleEnv id)
              "plugins" "downloads" Sample.hostOSArch (Sample.params ps)
              Sample.emptyWorld s.1 s.2.1 s.2.2 sample_rangeOrder_ok Hs)
    as (Hall & _ & _ & _ & _ & Hsummary & _).
  split.
  - unfold r, Sample.resolve. rewrite Hsummary by (vm_compute; discriminate).
    vm_compute; reflexivity.
  - assert (r.1 = s.1) as -> by (vm_compute; reflexivity).
    apply (Hall (Sample.plain Sample.aLoc)). do 3 right. left.
Defined.


(** C6 on two plugins that both provide [lint]. *)
Lemma conflict_symmetric_witness :
  let plugins : gmap locator Info :=
    {[ Sample.aLoc := Sample.mkInfo "com.palantir" "a" "1.0.0" [Sample.lintTask];
       Sample.bLoc := Sample.mkInfo "com.palantir" "b" "1.0.0"
                        [Sample.lintTask; Sample.echoTask] ]} in
  verifySinglePluginCompatibility Sample.aLoc plugins !! Sample.bLoc
    = Some "provides conflicting tasks: [lint]"
  /\ verifySinglePluginCompatibility Sample.bLoc plugins !! Sample.aLoc
    = Some "provides conflicting tasks: [lint]".
Proof.
  intros plugins.
  destruct (conflict_reported_from_both_sides plugins Sample.aLoc Sample.bLoc
              (Sample.mkInfo "com.palantir" "a" "1.0.0" [Sample.lintTask])
              (Sample.mkInfo "com.palantir" "b" "1.0.0" [Sample.lintTask; Sample.echoTask])
              ltac:(vm_compute; reflexivity) ltac:(vm_compute; reflexivity)
              ltac:(discriminate)) as [_ Htask].
  destruct (Htask "lint") as (HP & HQ & _ & _).
  - intros [_ H]. discriminate H.
  - vm_compute. left.
  - vm_compute. left.
  - split; [rewrite HP|rewrite HQ]; vm_compute; reflexivity.
Defined.

(** C7 on two plugins declared against the order of their locators. *)
Lemma tasks_sorted_witness :
  let ps := [Sample.plain Sample.echoLoc; Sample.plain Sample.aLoc] in
  let r := Sample.load id ps Sample.emptyWorld in
  map Name r.2.1 = ["lint"; "echo-task"]
  /\ exists (plugins : gmap locator Info) (sortedLocators : list locator),
       sortedLocators ≡ₚ elements (dom plugins)
       /\ StronglySorted locator_le sortedLocators
       /\ r.2.1 = concat (map (fun locator =>
                                 Info_Tasks (plugins !!! locator)
                                            (pluginPath "plugins" locator))
                              sortedLocators).
Proof.
  intros ps r.
  assert (r = (r.1, (r.2.1, None))) as Hr by (vm_compute; reflexivity).
  destruct (tasks_sorted_by_locator_then_declaration (env := Sample.sampleEnv id)
              ps Sample.emptyWorld r.1 r.2.1 sample_rangeOrder_ok Hr)
    as (params & pluginsDir & downloadsDir & plugins & sortedLocators
        & _ & Hd & _ & Hperm & Hsorted & Htasks & _).
  injection Hd as <- <-.
  split; [vm_compute; reflexivity|]. exists plugins, sortedLocators.
  exact (conj Hperm (conj Hsorted Htasks)).
Defined.

(** C9 on a plugin that resolves and one that cannot be fetched. *)
Lemma failed_step_witness :
  let ps := [Sample.plain Sample.echoLoc; Sample.plain Sample.goneLoc] in
  exists err, (Sample.load id ps Sample.emptyWorld).2 = ([], Some err).
Proof.
  intros ps.
  destruct (failed_step_fails_load (env := Sample.sampleEnv id)
              ps (Sample.params ps) "plugins" "downloads" Sample.emptyWorld
              1 (Sample.plain Sample.goneLoc) eq_refl eq_refl eq_refl) as (err & Herr & _).
  - left. eexists. vm_compute. reflexivity.
  - by exists err.
Defined.

(** C10 on two versions of the echo plugin, which both provide
    [echo-task]. *)
Lemma same_product_witness :
  let plugins : gmap locator Info :=
    {[ Sample.echoLoc := Sample.echoInfo;
       Sample.echo2Loc := Sample.mkInfo "com.palantir" "echo" "2.0.0" [Sample.echoTask] ]} in
  verifySinglePluginCompatibility Sample.echoLoc plugins !! Sample.echo2Loc
    = Some "different version of the same plugin"
  /\ "echo-task" ∈ commonTasks (plugins !!! Sample.echoLoc) (plugins !!! Sample.echo2Loc).
Proof.
  intros plugins.
  destruct (same_product_hides_task_conflicts plugins Sample.echoLoc Sample.echo2Loc
              Sample.echoInfo
              (Sample.mkInfo "com.palantir" "echo" "2.0.0" [Sample.echoTask])
              ltac:(vm_compute; reflexivity) ltac:(vm_compute; reflexivity)
              ltac:(discriminate) eq_refl eq_refl) as (H & _ & _).
  split; [exact H|]. vm_compute. left.
Defined.

(** * Further properties *)

(** ** Further properties of the compatibility checker *)

Lemma verifySingle_entry_conflict plugins P Q infoP msg :
  plugins !! P = Some infoP ->
  verifySinglePluginCompatibility P plugins !! Q = Some msg ->
  pluginsConflict plugins P Q.
Proof.
  intros HP. rewrite verifySingle_lookup.
  destruct (plugins !! Q) as [infoQ|] eqn:HQ; [simpl|done].
  unfold conflictWith. destruct (bool_decide (Q = P)) eqn:Hself; [done|].
  apply bool_decide_eq_false in Hself.
  exists infoP, infoQ. split_and!; [done..|congruence|].
  destruct (bool_decide (Group Q = Group P)) eqn:Hg;
    destruct (bool_decide (Product Q = Product P)) eqn:Hp; simpl in *;
    try apply bool_decide_eq_true in Hg; try apply bool_decide_eq_true in Hp;
    [by left|..];
    (rewrite lookup_total_alt, HP in H; simpl in H;
     destruct (commonTasks infoP infoQ) as [|t l] eqn:E; [done|];
     right; exists t; apply elem_of_commonTasks; rewrite E; left).
Qed.

Lemma pluginsConflict_sym plugins P Q :
  pluginsConflict plugins P Q -> pluginsConflict plugins Q P.
Proof.
  intros (infoP & infoQ & HP & HQ & Hne & Hc). exists infoQ, infoP.
  split_and!; [done..|congruence|].
  destruct Hc as [[??]|(t & ? & ?)]; [left|right]; eauto.
Qed.

Lemma pluginsConflict_entry plugins P Q :
  pluginsConflict plugins P Q ->
  pluginConflicts plugins !! P = Some (verifySinglePluginCompatibility P plugins)
  /\ is_Some (verifySinglePluginCompatibility P plugins !! Q).
Proof.
  intros (infoP & infoQ & HP & HQ & Hne & Hc).
  pose proof (conflict_makes_entry plugins P Q infoP infoQ HP HQ Hne Hc) as Hentry.
  split; [|done]. by eapply pluginConflicts_entry.
Qed.

Lemma pluginConflicts_nonempty_conflict plugins :
  pluginConflicts plugins <> ∅ -> exists P Q, pluginsConflict plugins P Q.
Proof.
  intros Hne. apply map_size_non_empty_iff, map_size_ne_0_lookup in Hne as [P [c Hc]].
  pose proof Hc as Hc'. rewrite pluginConflicts_lookup in Hc'.
  destruct (plugins !! P) as [infoP|] eqn:HP; [|done].
  destruct (Nat.eqb_spec (size (verifySinglePluginCompatibility P plugins)) 0) as [|Hsz];
    [done|].
  apply map_size_ne_0_lookup in Hsz as [Q [msg Hmsg]].
  exists P, Q. by eapply verifySingle_entry_conflict.
Qed.

Lemma verifyPluginCompatibility_None `{env : Env} plugins :
  verifyPluginCompatibility plugins = None <-> pluginConflicts plugins = ∅.
Proof.
  rewrite verifyPluginCompatibility_text. cbv zeta.
  destruct (Nat.eqb_spec (size (pluginConflicts plugins)) 0) as [Hsz|Hsz].
  - by apply map_size_empty_iff in Hsz.
  - split; [done|]. intros E. by rewrite E, map_size_empty in Hsz.
Qed.

(** X1. The compatibility check passes exactly when no two resolved
    plugins conflict: it reports nothing for a set without conflicts
    and fails on every set with one. *)
Theorem compatibility_passes_iff_no_conflict `{env : Env} (plugins : gmap locator Info) :
  verifyPluginCompatibility plugins = None
  <-> forall P Q, ~ pluginsConflict plugins P Q.
Proof.
  rewrite verifyPluginCompatibility_None. split.
  - intros Hempty P Q Hc. apply pluginsConflict_entry in Hc as [Hc _].
    by rewrite Hempty in Hc.
  - intros Hnone. destruct (decide (pluginConflicts plugins = ∅)) as [|Hne]; [done|].
    apply pluginConflicts_nonempty_conflict in Hne as (P & Q & Hc). by apply Hnone in Hc.
Qed.

(** X2. A compatibility error never names a single plugin: a conflict
    has two sides and each is reported, so the count that opens the
    error text is at least two. *)
Theorem compatibility_error_counts_both_sides `{env : Env}
    (plugins : gmap locator Info) (err : string) :
  verifyPluginCompatibility plugins = Some err ->
  exists rest,
    err = GoStr.fmt_d (size (pluginConflicts plugins))
          +:+ " plugins had compatibility issues:" +:+ rest
    /\ 2 <= size (pluginConflicts plugins).
Proof.
  intros Herr.
  assert (pluginConflicts plugins <> ∅) as Hne.
  { intros E. apply verifyPluginCompatibility_None in E. congruence. }
  rewrite verifyPluginCompatibility_text in Herr. cbv zeta in Herr.
  destruct (Nat.eqb (size (pluginConflicts plugins)) 0); [done|].
  injection Herr as <-. eexists. split; [reflexivity|].
  apply pluginConflicts_nonempty_conflict in Hne as (P & Q & Hc).
  pose proof Hc as (infoP & infoQ & _ & _ & HPQ & _).
  destruct (pluginsConflict_entry plugins P Q Hc) as [HP _].
  destruct (pluginsConflict_entry plugins Q P (pluginsConflict_sym _ _ _ Hc)) as [HQ _].
  assert (size (delete P (pluginConflicts plugins)) <> 0) as Hrest.
  { apply map_size_ne_0_lookup. exists Q. rewrite lookup_delete_ne by done. eauto. }
  rewrite (map_size_delete_Some P) in Hrest by eauto. lia.
Qed.

(** X3. A plugin's conflict list never holds the plugin itself, and
    holds none but resolved plugins. *)
Theorem conflict_list_excludes_self (plugins : gmap locator Info) (plugin : locator) :
  verifySinglePluginCompatibility plugin plugins !! plugin = None
  /\ dom (verifySinglePluginCompatibility plugin plugins) ⊆ dom plugins ∖ {[ plugin ]}.
Proof.
  assert (verifySinglePluginCompatibility plugin plugins !! plugin = None) as Hself.
  { rewrite verifySingle_lookup. destruct (plugins !! plugin); [simpl|done].
    unfold conflictWith. by rewrite bool_decide_eq_true_2. }
  split; [done|]. intros other Hother. apply elem_of_difference. split.
  - by apply verifySingle_dom in Hother.
  - intros ->%elem_of_singleton. apply elem_of_dom in Hother as [? ?]. congruence.
Qed.

(** X4. A load that succeeds returns the tasks of plugins that do not
    conflict: no two resolved plugins share group and product, and no
    task name is provided by two of them. *)
Theorem successful_load_has_no_conflicts `{env : Env}
    (cfg : PluginsConfig) (w w' : World) (tasks : list Task) :
  LoadPluginsTasks cfg w = (w', (tasks, None)) ->
  exists params pluginsDir downloadsDir plugins,
    projectParamsFromConfig cfg = Ok params
    /\ GodelHomeSpecDir = Ok (pluginsDir, downloadsDir)
    /\ resolvePlugins pluginsDir downloadsDir osarch_Current params w = (w', Ok plugins)
    /\ forall P Q infoP infoQ,
         plugins !! P = Some infoP -> plugins !! Q = Some infoQ -> P <> Q ->
         ~ (Group P = Group Q /\ Product P = Product Q)
         /\ forall t, t ∈ taskNames infoP -> t ∉ taskNames infoQ.
Proof.
  intros Hload.
  destruct (LoadPluginsTasks_success_inv cfg w w' tasks Hload)
    as (params & pluginsDir & downloadsDir & plugins & Hp & Hd & Hr & Hv & _).
  exists params, pluginsDir, downloadsDir, plugins. split_and!; [done..|].
  intros P Q infoP infoQ HP HQ Hne.
  apply verifyPluginCompatibility_None in Hv.
  assert (~ pluginsConflict plugins P Q) as Hno.
  { intros Hc. apply pluginsConflict_entry in Hc as [Hc _]. by rewrite Hv in Hc. }
  split.
  - intros Hgp. apply Hno. exists infoP, infoQ. eauto.
  - intros t HtP HtQ. apply Hno. exists infoP, infoQ. split_and!; eauto.
Qed.

(** X5. [LoadPluginsTasks] never returns tasks together with an error:
    on every path that yields an error the task list is empty. *)
Theorem load_returns_tasks_or_error `{env : Env} (cfg : PluginsConfig) (w : World) :
  (LoadPluginsTasks cfg w).2.1 = [] \/ (LoadPluginsTasks cfg w).2.2 = None.
Proof.
  unfold LoadPluginsTasks.
  destruct (projectParamsFromConfig cfg) as [params|e]; [|by left].
  destruct GodelHomeSpecDir as [[pluginsDir downloadsDir]|e]; [|by left].
  unfold bind.
  destruct (resolvePlugins pluginsDir downloadsDir osarch_Current params w)
    as [w1 [plugins|e]]; [|by left].
  destruct (verifyPluginCompatibility plugins); [by left|by right].
Qed.

(** ** Names and paths *)




(** X7. [sortLocators] rearranges its input into the order of the
    locators' string forms, and the result does not depend on the order
    of the input when the string forms are distinct. *)
Theorem sortLocators_sorts (locs : list locator) :
  sortLocators locs ≡ₚ locs
  /\ StronglySorted locator_le (sortLocators locs)
  /\ forall locs',
       locs' ≡ₚ locs ->
       (forall a b, a ∈ locs -> b ∈ locs ->
                    locator_String a = locator_String b -> a = b) ->
       sortLocators locs' = sortLocators locs.
Proof.
  split_and!.
  - apply sortLocators_Permutation.
  - apply sortLocators_sorted.
  - intros locs' Hperm Hinj. symmetry. by apply sortLocators_order_irrelevant.
Qed.

(** ** Further properties of the resolver *)

Section ResolverMore.

Context {env : Env}.

Variables (pluginsDir downloadsDir : string) (osArch : OSArch) (param : projectParams).

Lemma sweepPlugins_plugins_grow todo plugins pluginErrors w l :
  is_Some (plugins !! l) ->
  is_Some ((sweepPlugins pluginsDir downloadsDir osArch param todo plugins pluginErrors w).2.1 !! l).
Proof.
  revert plugins pluginErrors w.
  induction todo as [|cp todo IH]; intros plugins pluginErrors w Hl; [done|].
  simpl. unfold bind.
  destruct (resolvePlugin pluginsDir downloadsDir osArch param cp w) as [w1 [info|e]];
    apply IH; [|done].
  rewrite lookup_insert. case_decide; eauto.
Qed.

Lemma sweepPlugins_success_recorded todo plugins pluginErrors w j currPlugin info :
  todo !! j = Some currPlugin ->
  (resolvePlugin pluginsDir downloadsDir osArch param currPlugin
     (worldAfter pluginsDir downloadsDir osArch param (take j todo) w)).2 = Ok info ->
  is_Some ((sweepPlugins pluginsDir downloadsDir osArch param todo plugins pluginErrors w).2.1
             !! loc (LocatorWithChecksums currPlugin)).
Proof.
  revert plugins pluginErrors w j.
  induction todo as [|cp todo IH]; intros plugins pluginErrors w j Hj Hok; [done|].
  simpl. unfold bind. destruct j as [|j]; simpl in Hj, Hok.
  - simplify_eq.
    destruct (resolvePlugin pluginsDir downloadsDir osArch param currPlugin w)
      as [w1 [info'|e]]; [|done].
    apply sweepPlugins_plugins_grow. rewrite lookup_insert_eq. eauto.
  - destruct (resolvePlugin pluginsDir downloadsDir osArch param cp w) as [w1 [info'|e]];
      by eapply IH.
Qed.

Lemma sweepPlugins_plugin_origin todo plugins pluginErrors w l info :
  (sweepPlugins pluginsDir downloadsDir osArch param todo plugins pluginErrors w).2.1 !! l
    = Some info ->
  plugins !! l = Some info
  \/ exists j currPlugin,
       todo !! j = Some currPlugin
       /\ loc (LocatorWithChecksums currPlugin) = l
       /\ (resolvePlugin pluginsDir downloadsDir osArch param currPlugin
             (worldAfter pluginsDir downloadsDir osArch param (take j todo) w)).2 = Ok info.
Proof.
  revert plugins pluginErrors w.
  induction todo as [|cp todo IH]; intros plugins pluginErrors w; [by left|].
  simpl. unfold bind.
  destruct (resolvePlugin pluginsDir downloadsDir osArch param cp w) as [w1 [info'|e]] eqn:Hr;
    intros H; apply IH in H as [H|(j & cp' & Hj & Hl & Hj')].
  - rewrite lookup_insert in H. case_decide; [|by left].
    simplify_eq. right. exists 0, cp. simpl. by rewrite Hr.
  - right. exists (S j), cp'. simpl. by rewrite Hr.
  - by left.
  - right. exists (S j), cp'. simpl. by rewrite Hr.
Qed.

Lemma resolvePlugins_Ok_iff w :
  (exists plugins, (resolvePlugins pluginsDir downloadsDir osArch param w).2 = Ok plugins)
  <-> (sweepPlugins pluginsDir downloadsDir osArch param (Plugins param) ∅ ∅ w).2.2 = ∅.
Proof.
  rewrite resolvePlugins_unfold. cbv zeta. cbn [snd].
  destruct (Nat.eqb_spec (size (sweepPlugins pluginsDir downloadsDir osArch param
                                  (Plugins param) ∅ ∅ w).2.2) 0) as [Hsz|Hsz].
  - apply map_size_empty_iff in Hsz. split; eauto.
  - split; [by intros [? ?]|]. intros E. by rewrite E, map_size_empty in Hsz.
Qed.

Lemma sweepPlugins_no_errors_iff w :
  (sweepPlugins pluginsDir downloadsDir osArch param (Plugins param) ∅ ∅ w).2.2 = ∅
  <-> forall i currPlugin,
        Plugins param !! i = Some currPlugin ->
        exists info, attempt pluginsDir downloadsDir osArch param w i currPlugin = Ok info.
Proof.
  split.
  - intros Hempty i cp Hi. unfold attempt.
    destruct (resolvePlugin pluginsDir downloadsDir osArch param cp _).2 as [info|e] eqn:Hres;
      [eauto|].
    pose proof (sweepPlugins_failure_recorded pluginsDir downloadsDir osArch param
                  (Plugins param) ∅ ∅ w i cp e Hi Hres) as [e' He'].
    by rewrite Hempty in He'.
  - intros Hall. apply map_eq. intros l. rewrite lookup_empty.
    destruct (_ !! l) as [err|] eqn:Herr; [|done].
    apply sweepPlugins_error_origin in Herr as [?|(j & cp & Hj & _ & Hres)]; [done|].
    destruct (Hall j cp Hj) as [info Hinfo]. unfold attempt in Hinfo. congruence.
Qed.

End ResolverMore.

(** X8. [resolvePlugins] returns the plugins exactly when every
    iteration of its loop resolved its plugin; one failed iteration
    makes the whole call an error. *)
Theorem resolvePlugins_succeeds_iff_all_attempts `{env : Env}
    (pluginsDir downloadsDir : string) (osArch : OSArch) (param : projectParams)
    (w : World) :
  (exists plugins, (resolvePlugins pluginsDir downloadsDir osArch param w).2 = Ok plugins)
  <-> forall i currPlugin,
        Plugins param !! i = Some currPlugin ->
        exists info, attempt pluginsDir downloadsDir osArch param w i currPlugin = Ok info.
Proof.
  rewrite resolvePlugins_Ok_iff. apply sweepPlugins_no_errors_iff.
Qed.

(** X9. The map [resolvePlugins] returns has an entry for every
    declared plugin and for nothing else, and each entry is the
    information an iteration for that locator obtained. *)
Theorem resolvePlugins_returns_declared_plugins `{env : Env}
    (pluginsDir downloadsDir : string) (osArch : OSArch) (param : projectParams)
    (w w' : World) (plugins : gmap locator Info) :
  resolvePlugins pluginsDir downloadsDir osArch param w = (w', Ok plugins) ->
  (forall l, is_Some (plugins !! l)
             <-> exists currPlugin,
                   currPlugin ∈ Plugins param /\ loc (LocatorWithChecksums currPlugin) = l)
  /\ (forall l info,
        plugins !! l = Some info ->
        exists i currPlugin,
          Plugins param !! i = Some currPlugin
          /\ loc (LocatorWithChecksums currPlugin) = l
          /\ attempt pluginsDir downloadsDir osArch param w i currPlugin = Ok info).
Proof.
  intros Hrun. rewrite resolvePlugins_unfold in Hrun. cbv zeta in Hrun.
  destruct (sweepPlugins pluginsDir downloadsDir osArch param (Plugins param) ∅ ∅ w)
    as [w1 [plugins' pluginErrors]] eqn:Hsweep.
  cbn [fst snd] in Hrun.
  destruct (Nat.eqb_spec (size pluginErrors) 0) as [Hsz|]; [|done].
  apply map_size_empty_iff in Hsz. simplify_eq.
  assert ((sweepPlugins pluginsDir downloadsDir osArch param (Plugins param) ∅ ∅ w).2.2 = ∅)
    as Hnone by (by rewrite Hsweep).
  assert (forall l info,
            plugins !! l = Some info ->
            exists i currPlugin,
              Plugins param !! i = Some currPlugin
              /\ loc (LocatorWithChecksums currPlugin) = l
              /\ attempt pluginsDir downloadsDir osArch param w i currPlugin = Ok info)
    as Horigin.
  { intros l info Hl.
    pose proof (sweepPlugins_plugin_origin pluginsDir downloadsDir osArch param
                  (Plugins param) ∅ ∅ w l info) as H.
    rewrite Hsweep in H. destruct (H Hl) as [?|?]; [done|eauto]. }
  split; [|done]. intros l. split.
  - intros [info Hl]. destruct (Horigin l info Hl) as (i & cp & Hi & Hloc & _).
    exists cp. split; [by eapply list_elem_of_lookup_2|done].
  - intros (cp & Hcp & <-). apply list_elem_of_lookup in Hcp as [i Hi].
    destruct (proj1 (sweepPlugins_no_errors_iff pluginsDir downloadsDir osArch param w)
                Hnone i cp Hi) as [info Hinfo].
    pose proof (sweepPlugins_success_recorded pluginsDir downloadsDir osArch param
                  (Plugins param) ∅ ∅ w i cp info Hi Hinfo) as H.
    by rewrite Hsweep in H.
Qed.

Section ResolverFiles.

Context {env : Env}.

Variables (pluginsDir downloadsDir : string) (osArch : OSArch) (param : projectParams).

Lemma resolvePlugin_present_events currPlugin w c :
  files w !! pluginPath pluginsDir (loc (LocatorWithChecksums currPlugin)) = Some c ->
  exists evs,
    (resolvePlugin pluginsDir downloadsDir osArch param currPlugin w).1
    = {| files := files w; trace := trace w ++ evs |}
    /\ Forall (fun e => isFetchOrUnpack e = false) evs.
Proof.
  intros Hc. rewrite resolvePlugin_unfold.
  rewrite (ensureInstalled_present _ _ _ _ _ w c Hc). cbv zeta. cbn [fst snd].
  unfold pluginPath in *. io_unfold.
  destruct (Checksums (LocatorWithChecksums currPlugin) !! osArch) as [want|];
    cbn [fst snd files trace]; rewrite ?Hc; cbn [fst snd files trace].
  - destruct (bool_decide (sha256hex c <> want)); cbn [fst snd files trace]; rewrite ?Hc.
    + eexists. rewrite <-!app_assoc. split; [reflexivity|]. repeat constructor.
    + destruct (infoOutput c); cbn [fst]; eexists; rewrite <-!app_assoc;
        (split; [reflexivity|]); repeat constructor.
  - destruct (infoOutput c); cbn [fst]; eexists; rewrite <-!app_assoc;
      (split; [reflexivity|]); repeat constructor.
Qed.

Lemma worldAfter_present_events todo w :
  (forall q, q ∈ todo ->
     is_Some (files w !! pluginPath pluginsDir (loc (LocatorWithChecksums q)))) ->
  exists evs,
    worldAfter pluginsDir downloadsDir osArch param todo w
    = {| files := files w; trace := trace w ++ evs |}
    /\ Forall (fun e => isFetchOrUnpack e = false) evs.
Proof.
  revert w. induction todo as [|cp todo IH]; intros w Hall.
  - exists []. simpl. rewrite app_nil_r. by destruct w.
  - destruct (Hall cp) as [c Hc]; [by left|].
    destruct (resolvePlugin_present_events cp w c Hc) as (evs1 & Hw1 & Hevs1).
    simpl. rewrite Hw1.
    destruct (IH {| files := files w; trace := trace w ++ evs1 |}) as (evs2 & Hw2 & Hevs2).
    { intros q Hq. cbn [files]. apply Hall. by right. }
    exists (evs1 ++ evs2)%list. rewrite Hw2. cbn [files trace]. rewrite <-app_assoc.
    split; [done|]. by apply Forall_app.
Qed.

(** What an iteration leaves alone: every path but the plugin's
    archive and its install path. *)
Lemma resolvePlugin_frame_other currPlugin w x :
  fetch_writes_archive_only env ->
  x <> path_Join downloadsDir
         (pluginFileName (loc (LocatorWithChecksums currPlugin)) +:+ ".tgz") ->
  x <> pluginPath pluginsDir (loc (LocatorWithChecksums currPlugin)) ->
  files (resolvePlugin pluginsDir downloadsDir osArch param currPlugin w).1 !! x
  = files w !! x.
Proof.
  intros Hframe Hne Hxd.
  destruct (files w !! pluginPath pluginsDir (loc (LocatorWithChecksums currPlugin)))
    as [c'|] eqn:Hdst.
  { destruct (resolvePlugin_present pluginsDir downloadsDir osArch param currPlugin w c' Hdst)
      as [-> _]. done. }
  pose proof (Hframe currPlugin (DefaultResolvers param) osArch _ (files w) x Hne) as Hfr.
  unfold pluginPath in Hdst, Hxd. io_unfold. rewrite Hdst.
  rewrite bool_decide_eq_true_2 by done. cbn [fst snd files trace].
  destruct (resolvePluginTGZ _ _ _ _ (files w)) as [fs1 e]. simpl in Hfr.
  cbn [fst snd files trace].
  io_cases; rewrite ?lookup_insert_ne by done; congruence.
Qed.

Lemma worldAfter_frame_other todo w x :
  fetch_writes_archive_only env ->
  (forall q, q ∈ todo ->
     x <> path_Join downloadsDir (pluginFileName (loc (LocatorWithChecksums q)) +:+ ".tgz")
     /\ x <> pluginPath pluginsDir (loc (LocatorWithChecksums q))) ->
  files (worldAfter pluginsDir downloadsDir osArch param todo w) !! x = files w !! x.
Proof.
  intros Hframe. revert w. induction todo as [|cp todo IH]; intros w Hne; [done|].
  simpl. rewrite IH.
  - destruct (Hne cp) as [? ?]; [by left|]. by apply resolvePlugin_frame_other.
  - intros q Hq. apply Hne. by right.
Qed.

(** A resolved plugin is installed with the bytes that were probed and,
    where a checksum is configured, checked. *)
Lemma resolvePlugin_Ok_integrity currPlugin w info :
  (resolvePlugin pluginsDir downloadsDir osArch param currPlugin w).2 = Ok info ->
  exists c,
    files (resolvePlugin pluginsDir downloadsDir osArch param currPlugin w).1
      !! pluginPath pluginsDir (loc (LocatorWithChecksums currPlugin)) = Some c
    /\ infoOutput c = Ok info
    /\ forall wantChecksum,
         Checksums (LocatorWithChecksums currPlugin) !! osArch = Some wantChecksum ->
         sha256hex c = wantChecksum.
Proof.
  intros Hok.
  destruct (ensureInstalled pluginsDir downloadsDir osArch param currPlugin w)
    as [w1 [e|]] eqn:H1.
  { rewrite resolvePlugin_unfold, H1 in Hok. done. }
  destruct (ensureInstalled_installs pluginsDir downloadsDir osArch param currPlugin w w1 H1)
    as [c Hc].
  exists c. revert Hok. rewrite resolvePlugin_unfold, H1. cbv zeta. cbn [fst snd].
  unfold pluginPath in *. io_unfold.
  destruct (Checksums (LocatorWithChecksums currPlugin) !! osArch) as [want|];
    cbn [fst snd files trace]; rewrite ?Hc; cbn [fst snd files trace].
  - destruct (bool_decide (sha256hex c <> want)) eqn:Hcmp; cbn [fst snd files trace];
      rewrite ?Hc; [done|].
    apply bool_decide_eq_false in Hcmp.
    destruct (infoOutput c) as [info'|e]; cbn [fst snd files]; [|done].
    intros [= ->]. split_and!; [done..|]. intros ? [= <-].
    by destruct (decide (sha256hex c = want)).
  - destruct (infoOutput c) as [info'|e]; cbn [fst snd files]; [|done].
    intros [= ->]. by split_and!.
Qed.

End ResolverFiles.

(** X10. When every declared plugin is found at its install path,
    [resolvePlugins] neither fetches nor unpacks and leaves all files
    as they are, whether or not the plugins then pass their checks. *)
Theorem installed_plugins_need_no_fetch `{env : Env}
    (pluginsDir downloadsDir : string) (osArch : OSArch) (param : projectParams)
    (w : World) :
  (forall currPlugin,
     currPlugin ∈ Plugins param ->
     is_Some (files w !! pluginPath pluginsDir (loc (LocatorWithChecksums currPlugin)))) ->
  exists evs,
    (resolvePlugins pluginsDir downloadsDir osArch param w).1
    = {| files := files w; trace := trace w ++ evs |}
    /\ Forall (fun e => isFetchOrUnpack e = false) evs.
Proof.
  intros Hall. rewrite resolvePlugins_unfold. cbv zeta. cbn [fst].
  rewrite sweepPlugins_world. by apply worldAfter_present_events.
Qed.

(** X11. With a fetcher that writes only the archive it is asked for,
    [resolvePlugins] writes nowhere but at the archive and install
    paths of the declared plugins, and it never changes a file that
    exists outside the archive paths: an installed plugin is not
    written again. *)
Theorem resolvePlugins_writes_only_its_paths `{env : Env}
    (pluginsDir downloadsDir : string) (osArch : OSArch) (param : projectParams)
    (w : World) (x : string) :
  fetch_writes_archive_only env ->
  (forall q, q ∈ Plugins param ->
     x <> path_Join downloadsDir (pluginFileName (loc (LocatorWithChecksums q)) +:+ ".tgz")) ->
  (forall c, files w !! x = Some c ->
             files (resolvePlugins pluginsDir downloadsDir osArch param w).1 !! x = Some c)
  /\ ((forall q, q ∈ Plugins param ->
         x <> pluginPath pluginsDir (loc (LocatorWithChecksums q))) ->
      files (resolvePlugins pluginsDir downloadsDir osArch param w).1 !! x = files w !! x).
Proof.
  intros Hframe Harch. rewrite resolvePlugins_unfold. cbv zeta. cbn [fst].
  rewrite sweepPlugins_world. split.
  - intros c Hc. by apply worldAfter_frame.
  - intros Hinst. apply worldAfter_frame_other; [done|]. intros q Hq. split; eauto.
Qed.


(** X13. A plugin that an iteration resolves is installed: the install
    path holds the bytes whose info is returned, and where a checksum
    is configured for the platform their digest is the configured
    one. *)
Theorem resolved_plugin_is_checked `{env : Env}
    (pluginsDir downloadsDir : string) (osArch : OSArch) (param : projectParams)
    (currPlugin : pluginParam) (w w' : World) (info : Info) :
  resolvePlugin pluginsDir downloadsDir osArch param currPlugin w = (w', Ok info) ->
  exists c,
    files w' !! pluginPath pluginsDir (loc (LocatorWithChecksums currPlugin)) = Some c
    /\ infoOutput c = Ok info
    /\ forall wantChecksum,
         Checksums (LocatorWithChecksums currPlugin) !! osArch = Some wantChecksum ->
         sha256hex c = wantChecksum.
Proof.
  intros Hrun.
  destruct (resolvePlugin_Ok_integrity pluginsDir downloadsDir osArch param currPlugin w info)
    as (c & Hc & Hinfo & Hsum); [by rewrite Hrun|].
  rewrite Hrun in Hc. eauto.
Qed.

Section ResolverEnd.

Context {env : Env}.

Variables (pluginsDir downloadsDir : string) (osArch : OSArch) (param : projectParams).

(** What an iteration resolved is still installed when the loop ends. *)
Lemma attempt_content_at_end w j q info :
  fetch_writes_archive_only env ->
  archives_apart pluginsDir downloadsDir param ->
  Plugins param !! j = Some q ->
  attempt pluginsDir downloadsDir osArch param w j q = Ok info ->
  exists c,
    files (worldAfter pluginsDir downloadsDir osArch param (Plugins param) w)
      !! pluginPath pluginsDir (loc (LocatorWithChecksums q)) = Some c
    /\ infoOutput c = Ok info
    /\ forall wantChecksum,
         Checksums (LocatorWithChecksums q) !! osArch = Some wantChecksum ->
         sha256hex c = wantChecksum.
Proof.
  intros Hframe Hapart Hj Hres. unfold attempt in Hres.
  destruct (resolvePlugin_Ok_integrity pluginsDir downloadsDir osArch param q _ info Hres)
    as (c & Hc & Hinfo & Hsum).
  exists c. split_and!; [|done..].
  rewrite <-(take_drop_middle (Plugins param) j q Hj) at 1.
  rewrite worldAfter_app. simpl. apply worldAfter_frame; [done..|].
  intros q' Hq'. apply Hapart.
  - by eapply list_elem_of_lookup_2.
  - by apply (subseteq_drop (S j) (Plugins param)).
Qed.

End ResolverEnd.

(** X14. With a fetcher that writes only the archive it is asked for
    and archives kept apart from the installed plugins, the map
    [resolvePlugins] returns describes what is installed when it
    returns: for every declared plugin the install path holds a file,
    the entry of its locator is the info of that file, and where a
    checksum is configured for the platform the file's digest is the
    configured one. *)
Theorem returned_plugins_are_installed_and_checked `{env : Env}
    (pluginsDir downloadsDir : string) (osArch : OSArch) (param : projectParams)
    (w w' : World) (plugins : gmap locator Info) :
  fetch_writes_archive_only env ->
  archives_apart pluginsDir downloadsDir param ->
  resolvePlugins pluginsDir downloadsDir osArch param w = (w', Ok plugins) ->
  forall currPlugin,
    currPlugin ∈ Plugins param ->
    exists c info,
      files w' !! pluginPath pluginsDir (loc (LocatorWithChecksums currPlugin)) = Some c
      /\ plugins !! loc (LocatorWithChecksums currPlugin) = Some info
      /\ infoOutput c = Ok info
      /\ forall wantChecksum,
           Checksums (LocatorWithChecksums currPlugin) !! osArch = Some wantChecksum ->
           sha256hex c = wantChecksum.
Proof.
  intros Hframe Hapart Hrun cp Hcp.
  rewrite resolvePlugins_unfold in Hrun. cbv zeta in Hrun.
  destruct (sweepPlugins pluginsDir downloadsDir osArch param (Plugins param) ∅ ∅ w)
    as [w1 [plugins' pluginErrors]] eqn:Hsweep.
  cbn [fst snd] in Hrun.
  destruct (Nat.eqb_spec (size pluginErrors) 0) as [Hsz|]; [|done].
  apply map_size_empty_iff in Hsz. simplify_eq.
  assert (w' = worldAfter pluginsDir downloadsDir osArch param (Plugins param) w) as ->.
  { by rewrite <-(sweepPlugins_world _ _ _ _ _ ∅ ∅), Hsweep. }
  assert ((sweepPlugins pluginsDir downloadsDir osArch param (Plugins param) ∅ ∅ w).2.2 = ∅)
    as Hnone by (by rewrite Hsweep).
  apply list_elem_of_lookup in Hcp as [i Hi].
  destruct (proj1 (sweepPlugins_no_errors_iff pluginsDir downloadsDir osArch param w)
              Hnone i cp Hi) as [info_i Hinfo_i].
  destruct (attempt_content_at_end pluginsDir downloadsDir osArch param w i cp info_i
              Hframe Hapart Hi Hinfo_i) as (c & Hc & Hprobe & Hsum).
  pose proof (sweepPlugins_success_recorded pluginsDir downloadsDir osArch param
                (Plugins param) ∅ ∅ w i cp info_i Hi Hinfo_i) as [info Hinfo].
  rewrite Hsweep in Hinfo. cbn [snd fst] in Hinfo.
  pose proof (sweepPlugins_plugin_origin pluginsDir downloadsDir osArch param
                (Plugins param) ∅ ∅ w (loc (LocatorWithChecksums cp)) info) as Horigin.
  rewrite Hsweep in Horigin. destruct (Horigin Hinfo) as [?|(j & q & Hj & Hloc & Hq)]; [done|].
  destruct (attempt_content_at_end pluginsDir downloadsDir osArch param w j q info
              Hframe Hapart Hj Hq) as (c' & Hc' & Hprobe' & _).
  rewrite Hloc, Hc in Hc'. simplify_eq.
  exists c', info. split_and!; [done..| |done]. congruence.
Qed.

(** ** The order of map iteration *)

Lemma resolvePlugin_withOrder env order pluginsDir downloadsDir osArch param currPlugin w :
  @resolvePlugin (withOrder env order) pluginsDir downloadsDir osArch param currPlugin w
  = @resolvePlugin env pluginsDir downloadsDir osArch param currPlugin w.
Proof. reflexivity. Qed.

Lemma sweepPlugins_withOrder env order pluginsDir downloadsDir osArch param todo
    plugins pluginErrors w :
  @sweepPlugins (withOrder env order) pluginsDir downloadsDir osArch param todo
    plugins pluginErrors w
  = @sweepPlugins env pluginsDir downloadsDir osArch param todo plugins pluginErrors w.
Proof.
  revert plugins pluginErrors w.
  induction todo as [|cp todo IH]; intros plugins pluginErrors w; [done|].
  simpl. unfold bind. rewrite resolvePlugin_withOrder.
  destruct (resolvePlugin pluginsDir downloadsDir osArch param cp w) as [w1 [info|e]];
    apply IH.
Qed.

Lemma sortLocators_mapKeys_withOrder {V} env o1 o2 (m : gmap locator V) :
  (forall l, o1 l ≡ₚ l) -> (forall l, o2 l ≡ₚ l) ->
  (forall a b, a ∈ dom m -> b ∈ dom m -> locator_String a = locator_String b -> a = b) ->
  sortLocators (@mapKeys (withOrder env o1) V m)
  = sortLocators (@mapKeys (withOrder env o2) V m).
Proof.
  intros H1 H2 Hinj. apply sortLocators_order_irrelevant.
  - unfold mapKeys. simpl. by rewrite H1, H2.
  - intros a b Ha Hb. unfold mapKeys in Ha, Hb. simpl in Ha, Hb.
    rewrite H1, elem_of_elements in Ha, Hb. by apply Hinj.
Qed.

(** X15. [LoadPluginsTasks] does not depend on the order in which Go
    iterates over its maps: for declared plugins whose locators have
    distinct string forms, any two iteration orders give the same
    tasks, the same error and the same effects. *)
Theorem load_independent_of_map_order (env : Env)
    (o1 o2 : list locator -> list locator) (cfg : @PluginsConfig env) (w : World) :
  (forall l, o1 l ≡ₚ l) ->
  (forall l, o2 l ≡ₚ l) ->
  (forall params,
     @projectParamsFromConfig env cfg = Ok params ->
     forall p q, p ∈ Plugins params -> q ∈ Plugins params ->
       locator_String (loc (LocatorWithChecksums p))
       = locator_String (loc (LocatorWithChecksums q)) ->
       loc (LocatorWithChecksums p) = loc (LocatorWithChecksums q)) ->
  @LoadPluginsTasks (withOrder env o1) cfg w = @LoadPluginsTasks (withOrder env o2) cfg w.
Proof.
  intros H1 H2 Hinj. unfold LoadPluginsTasks. cbn [projectParamsFromConfig withOrder
    GodelHomeSpecDir osarch_Current].
  destruct (@projectParamsFromConfig env cfg) as [params|e] eqn:Hp; [|done].
  specialize (Hinj params eq_refl).
  destruct (@GodelHomeSpecDir env) as [[pluginsDir downloadsDir]|e]; [|done].
  unfold bind. rewrite !resolvePlugins_unfold. cbv zeta. rewrite !sweepPlugins_withOrder.
  destruct (@sweepPlugins env pluginsDir downloadsDir (@osarch_Current env) params
              (Plugins params) ∅ ∅ w) as [w1 [plugins pluginErrors]] eqn:Hsweep.
  cbn [fst snd].
  assert (forall a b, a ∈ dom pluginErrors -> b ∈ dom pluginErrors ->
                      locator_String a = locator_String b -> a = b) as HinjE.
  { intros a b [ea Ha]%elem_of_dom [eb Hb]%elem_of_dom Hab.
    pose proof (sweepPlugins_error_origin pluginsDir downloadsDir (@osarch_Current env)
                  params (Plugins params) ∅ ∅ w) as Horigin.
    rewrite Hsweep in Horigin.
    destruct (Horigin a ea Ha) as [?|(ja & pa & Hja & <- & _)]; [done|].
    destruct (Horigin b eb Hb) as [?|(jb & pb & Hjb & <- & _)]; [done|].
    apply Hinj; [by eapply list_elem_of_lookup_2..|done]. }
  assert (forall a b, a ∈ dom plugins -> b ∈ dom plugins ->
                      locator_String a = locator_String b -> a = b) as HinjP.
  { intros a b [ia Ha]%elem_of_dom [ib Hb]%elem_of_dom Hab.
    pose proof (sweepPlugins_plugin_origin pluginsDir downloadsDir (@osarch_Current env)
                  params (Plugins params) ∅ ∅ w) as Horigin.
    rewrite Hsweep in Horigin.
    destruct (Horigin a ia Ha) as [?|(ja & pa & Hja & <- & _)]; [done|].
    destruct (Horigin b ib Hb) as [?|(jb & pb & Hjb & <- & _)]; [done|].
    apply Hinj; [by eapply list_elem_of_lookup_2..|done]. }
  destruct (Nat.eqb (size pluginErrors) 0).
  - rewrite (verifyPluginCompatibility_order_irrelevant
               (withOrder env o1) (withOrder env o2) plugins) by done.
    destruct (@verifyPluginCompatibility (withOrder env o2) plugins); [done|].
    by rewrite (sortLocators_mapKeys_withOrder env o1 o2 plugins).
  - rewrite !resolveErrorSummary_text.
    by rewrite (sortLocators_mapKeys_withOrder env o1 o2 pluginErrors).
Qed.

(** ** The IDEA task *)




(** ** The further properties at work on the sample environment *)

(** X2 on two plugins that both provide [lint]. *)
Lemma compatibility_error_count_witness :
  let plugins : gmap locator Info :=
    {[ Sample.aLoc := Sample.mkInfo "com.palantir" "a" "1.0.0" [Sample.lintTask];
       Sample.bLoc := Sample.mkInfo "com.palantir" "b" "1.0.0" [Sample.lintTask] ]} in
  size (pluginConflicts plugins) = 2 /\ 2 <= size (pluginConflicts plugins).
Proof.
  intros plugins. split; [vm_compute; reflexivity|].
  destruct (compatibility_error_counts_both_sides (env := Sample.sampleEnv id) plugins
              ("2 plugins had compatibility issues:" +:+ GoStr.nl
               +:+ "    com.palantir:a:1.0.0:" +:+ GoStr.nl
               +:+ "        provides conflicting tasks: [lint]" +:+ GoStr.nl
               +:+ "    com.palantir:b:1.0.0:" +:+ GoStr.nl
               +:+ "        provides conflicting tasks: [lint]")
              ltac:(vm_compute; reflexivity)) as (rest & _ & Hcount).
  exact Hcount.
Defined.

(** X4 on the echo plugin and a plugin that provides [lint]. *)
Lemma successful_load_witness :
  let ps := [Sample.plain Sample.echoLoc; Sample.plain Sample.aLoc] in
  let r := Sample.load id ps Sample.emptyWorld in
  exists plugins,
    (Sample.resolve id ps Sample.emptyWorld).2 = Ok plugins
    /\ forall P Q infoP infoQ,
         plugins !! P = Some infoP -> plugins !! Q = Some infoQ -> P <> Q ->
         ~ (Group P = Group Q /\ Product P = Product Q)
         /\ forall t, t ∈ taskNames infoP -> t ∉ taskNames infoQ.
Proof.
  intros ps r.
  assert (r = (r.1, (r.2.1, None))) as Hr by (vm_compute; reflexivity).
  destruct (successful_load_has_no_conflicts (env := Sample.sampleEnv id)
              ps Sample.emptyWorld r.1 r.2.1 Hr)
    as (params & pluginsDir & downloadsDir & plugins & Hp & Hd & Hres & Hno).
  injection Hp as <-. injection Hd as <- <-.
  exists plugins. split; [|exact Hno].
  exact (f_equal snd Hres).
Defined.


(** X9 on two plugins that resolve. *)
Lemma resolvePlugins_returns_declared_witness :
  let ps := [Sample.plain Sample.echoLoc; Sample.plain Sample.aLoc] in
  let r := Sample.resolve id ps Sample.emptyWorld in
  exists plugins,
    r.2 = Ok plugins
    /\ is_Some (plugins !! Sample.echoLoc)
    /\ is_Some (plugins !! Sample.aLoc)
    /\ plugins !! Sample.bLoc = None.
Proof.
  intros ps r.
  assert (is_Ok r.2 = true) as Hok by (vm_compute; reflexivity).
  destruct r as [w1 [plugins|e]] eqn:Hr; [clear Hok|discriminate Hok].
  destruct (resolvePlugins_returns_declared_plugins (env := Sample.sampleEnv id)
              "plugins" "downloads" Sample.hostOSArch (Sample.params ps)
              Sample.emptyWorld w1 plugins Hr) as [Hkeys _].
  exists plugins. split_and!.
  - reflexivity.
  - apply Hkeys. exists (Sample.plain Sample.echoLoc). split; [left|reflexivity].
  - apply Hkeys. exists (Sample.plain Sample.aLoc). split; [right; left|reflexivity].
  - destruct (plugins !! Sample.bLoc) as [info|] eqn:Hb; [|reflexivity].
    destruct (proj1 (Hkeys Sample.bLoc) (ex_intro _ info Hb)) as (cp & Hcp & Hloc).
    apply elem_of_cons in Hcp as [->|Hcp]; [discriminate Hloc|].
    apply elem_of_cons in Hcp as [->|Hcp]; [discriminate Hloc|].
    by apply elem_of_nil in Hcp.
Defined.

(** X10 on an installed echo plugin. *)
Lemma installed_plugins_witness :
  let w := {| files := {[ "plugins/com.palantir-echo-1.0.0" := "echo" ]}; trace := [] |} in
  exists evs,
    (Sample.resolve id [Sample.plain Sample.echoLoc] w).1
    = {| files := files w; trace := trace w ++ evs |}
    /\ Forall (fun e => isFetchOrUnpack e = false) evs.
Proof.
  intros w.
  apply (installed_plugins_need_no_fetch (env := Sample.sampleEnv id)
           "plugins" "downloads" Sample.hostOSArch
           (Sample.params [Sample.plain Sample.echoLoc]) w).
  intros cp Hcp. apply elem_of_cons in Hcp as [->|Hcp]; [|by apply elem_of_nil in Hcp].
  exists "echo". vm_compute. reflexivity.
Defined.

(** X11 on a file the resolver has no business with. *)
Lemma resolvePlugins_frame_witness :
  let w := {| files := {[ "notes.txt" := "keep" ]}; trace := [] |} in
  files (Sample.resolve id [Sample.plain Sample.echoLoc] w).1 !! "notes.txt" = Some "keep".
Proof.
  intros w.
  destruct (resolvePlugins_writes_only_its_paths (env := Sample.sampleEnv id)
              "plugins" "downloads" Sample.hostOSArch
              (Sample.params [Sample.plain Sample.echoLoc]) w "notes.txt"
              (sample_fetch_frame id)) as [Hkeep _].
  - intros q _. unfold path_Join. simpl. discriminate.
  - apply Hkeep. vm_compute. reflexivity.
Defined.


(** X13 on the echo plugin with its checksum configured. *)
Lemma resolved_plugin_witness :
  let sum := "5891b5b522d5df086d0ff0b110fbd9d21bb4fc7163af34d08286a2e846f6be03" in
  let cp := Sample.withChecksum Sample.echoLoc sum in
  let r := @resolvePlugin (Sample.sampleEnv id) "plugins" "downloads" Sample.hostOSArch
             (Sample.params [cp]) cp Sample.emptyWorld in
  exists c,
    files r.1 !! "plugins/com.palantir-echo-1.0.0" = Some c
    /\ @infoOutput (Sample.sampleEnv id) c = Ok Sample.echoInfo
    /\ @sha256hex (Sample.sampleEnv id) c = sum.
Proof.
  intros sum cp r.
  assert (r = (r.1, Ok Sample.echoInfo)) as Hr by (vm_compute; reflexivity).
  destruct (resolved_plugin_is_checked (env := Sample.sampleEnv id)
              "plugins" "downloads" Sample.hostOSArch (Sample.params [cp]) cp
              Sample.emptyWorld r.1 Sample.echoInfo Hr) as (c & Hc & Hinfo & Hsum).
  exists c. split_and!; [exact Hc|exact Hinfo|].
  apply Hsum. vm_compute. reflexivity.
Defined.

(** X14 on a plugin with a checksum and one without. *)
Lemma returned_plugins_witness :
  let sum := "5891b5b522d5df086d0ff0b110fbd9d21bb4fc7163af34d08286a2e846f6be03" in
  let cp := Sample.withChecksum Sample.echoLoc sum in
  let ps := [cp; Sample.plain Sample.aLoc] in
  let r := Sample.resolve id ps Sample.emptyWorld in
  exists c info,
    files r.1 !! "plugins/com.palantir-echo-1.0.0" = Some c
    /\ @infoOutput (Sample.sampleEnv id) c = Ok info
    /\ @sha256hex (Sample.sampleEnv id) c = sum.
Proof.
  intros sum cp ps r.
  assert (is_Ok r.2 = true) as Hok by (vm_compute; reflexivity).
  destruct r as [w1 [plugins|e]] eqn:Hr; [clear Hok|discriminate Hok].
  destruct (returned_plugins_are_installed_and_checked (env := Sample.sampleEnv id)
              "plugins" "downloads" Sample.hostOSArch (Sample.params ps)
              Sample.emptyWorld w1 plugins (sample_fetch_frame id)
              (sample_archives_apart _) Hr cp ltac:(left))
    as (c & info & Hc & _ & Hinfo & Hsum).
  exists c, info. split_and!; [exact Hc|exact Hinfo|].
  apply Hsum. vm_compute. reflexivity.
Defined.

(** X15 on iteration in ascending and in descending order. *)
Lemma load_order_witness :
  let ps := [Sample.plain Sample.echoLoc; Sample.plain Sample.aLoc] in
  @LoadPluginsTasks (withOrder (Sample.sampleEnv id) id) ps Sample.emptyWorld
  = @LoadPluginsTasks (withOrder (Sample.sampleEnv id) (@rev locator)) ps Sample.emptyWorld.
Proof.
  intros ps.
  apply (load_independent_of_map_order (Sample.sampleEnv id) id (@rev locator) ps
           Sample.emptyWorld).
  - intros l. reflexivity.
  - intros l. symmetry. apply Permutation_rev.
  - intros params [= <-] p q Hp Hq Hstr. simpl in Hp, Hq.
    apply elem_of_cons in Hp as [->|Hp]; apply elem_of_cons in Hq as [->|Hq];
      try (apply elem_of_cons in Hp as [->|Hp]; [|by apply elem_of_nil in Hp]);
      try (apply elem_of_cons in Hq as [->|Hq]; [|by apply elem_of_nil in Hq]);
      first [reflexivity | discriminate Hstr].
Defined.

